(** * Google Workspace MCP server: credential lifecycle and free-slot search

    A shallow embedding of the two pieces of [serverv3.js] that carry logic:
    the OAuth2 credential lifecycle ([loadSavedCredentialsIfExist],
    [saveCredentials], [ensureValidToken], [authorize] and the
    [CallToolRequestSchema] handler that guards every tool with
    [ensureValidToken]) and the gap computation of [findFreeSlots].

    Conventions of the embedding.
    - Times are epoch milliseconds in [Z]; a JS [Date] or number that may be
      invalid is an [option Z] whose [None] is [NaN] / Invalid Date.
    - An [async] method is a computation in the monad [M]: it reads and
      updates the process state and ends in [Return v] or [Throw e].  A
      thrown error keeps the state changes made before it, as in JS.
    - The remote collaborators (googleapis, local-auth) are the record
      [Remote]: what each call answers is an input of the model.  So is
      what the file system answers to a write of the token file (the
      field [writeFile_TOKEN] of the state): the write can be refused.
    - A text handed to [JSON.parse] is represented by what [JSON.parse]
      makes of it (type [text]). *)

From Stdlib Require Import ZArith List String Bool Lia Sorted.
Import ListNotations.
Open Scope string_scope.
Open Scope Z_scope.

Set Implicit Arguments.

(** ** JavaScript errors and outcomes *)

Record JsError := mkJsError { err_name : string; err_message : string }.

Definition Error (message : string) : JsError := mkJsError "Error" message.
Definition TypeError (message : string) : JsError := mkJsError "TypeError" message.
Definition SyntaxError (message : string) : JsError := mkJsError "SyntaxError" message.
(** [fs.readFile] on a missing file rejects with the system error ENOENT. *)
Definition ENOENT : JsError := mkJsError "Error" "ENOENT: no such file or directory".

Inductive Outcome (A : Type) : Type :=
| Return (a : A)
| Throw (e : JsError).
Arguments Return {A} a.
Arguments Throw {A} e.

(** ** JSON documents *)

(** The value [JSON.parse] returns, as far as the code looks at it: [null]
    (every property access on it throws), or a value seen through the
    properties the code reads ([A] is the record of those properties; a
    property that is missing, [undefined] or [null] is [None]).  A JSON
    number, string, boolean or array has none of the properties read here
    and is the record with every field [None]. *)
Inductive json (A : Type) : Type :=
| JNull
| JObject (a : A).
Arguments JNull {A}.
Arguments JObject {A} a.

(** A text: the empty string (falsy, and not JSON), a non-empty text that
    [JSON.parse] rejects, or the text of a JSON value. *)
Inductive text (A : Type) : Type :=
| EmptyText
| NotJson
| JsonText (j : json A).
Arguments EmptyText {A}.
Arguments NotJson {A}.
Arguments JsonText {A} j.

Definition JSON_parse {A} (content : text A) : Outcome (json A) :=
  match content with
  | JsonText j => Return j
  | EmptyText => Throw (SyntaxError "Unexpected end of JSON input")
  | NotJson => Throw (SyntaxError "Unexpected token in JSON")
  end.

(** [v.p]: reading a property of [null] throws a [TypeError]. *)
Definition prop {A B} (v : json A) (p : A -> B) : Outcome B :=
  match v with
  | JObject a => Return (p a)
  | JNull => Throw (TypeError "Cannot read properties of null")
  end.

(** [v.p] where [v] may be [undefined] or [null]. *)
Definition prop_opt {A B} (v : option A) (p : A -> B) : Outcome B :=
  match v with
  | Some a => Return (p a)
  | None => Throw (TypeError "Cannot read properties of undefined")
  end.

(** [a || b] on values that are objects when present (always truthy). *)
Definition or_else {A} (a b : option A) : option A :=
  match a with
  | Some _ => a
  | None => b
  end.

(** The token document: what [saveCredentials] writes and what
    [loadSavedCredentialsIfExist] reads back. *)
Record TokenJson := mkTokenJson {
  tok_type : option string;
  tok_client_id : option string;
  tok_client_secret : option string;
  tok_refresh_token : option string;
  tok_access_token : option string;
  tok_token_type : option string;
  tok_expiry_date : option Z
}.

(** The client-key document [credentials.json]. *)
Record Key := mkKey {
  client_id : option string;
  client_secret : option string;
  redirect_uris : option (list string)
}.

Record KeysJson := mkKeysJson {
  installed : option Key;
  web : option Key
}.

(** ** The OAuth2 client *)

Record Credentials := mkCredentials {
  refresh_token : option string;
  access_token : option string;
  token_type : option string;
  expiry_date : option Z
}.

Record OAuth2Client := mkOAuth2Client {
  _clientId : option string;
  _clientSecret : option string;
  redirectUri : option string;
  credentials : option Credentials
}.

(** [new google.auth.OAuth2(id, secret, uri)]: a client whose credentials
    are the empty object. *)
Definition new_OAuth2 (id secret uri : option string) : OAuth2Client :=
  mkOAuth2Client id secret uri (Some (mkCredentials None None None None)).

(** [client.setCredentials(c)] replaces the credentials object. *)
Definition setCredentials (client : OAuth2Client) (c : Credentials) : OAuth2Client :=
  mkOAuth2Client (_clientId client) (_clientSecret client) (redirectUri client) (Some c).

(** ** Process state *)

Inductive Path := TOKEN_PATH | CREDENTIALS_PATH.

(** What the process does to the outside, in order. *)
Inductive Event :=
| EvConsoleError (message : string)
| EvSaveCredentials            (* [saveCredentials] is entered *)
| EvReadFile (p : Path)
| EvOpenTruncate (p : Path)
| EvWriteData (p : Path)
| EvRefreshAccessToken
| EvGetAccessToken
| EvAuthenticate
| EvTool (name : string).

(** What the file system answers to [fs.writeFile(TOKEN_PATH, data)].  Node
    opens the file with flag 'w', which creates it or truncates it to length
    zero, and then writes the data; either step can be refused, and the
    promise then rejects with the system error. *)
Inductive WriteAnswer :=
| Written                       (* both steps succeed *)
| OpenRejected (e : JsError)    (* EACCES, EROFS, EISDIR: the file is not touched *)
| WriteRejected (e : JsError).  (* ENOSPC, EFBIG, EIO: the file stays truncated *)

Record State := mkState {
  env_GOOGLE_TOKEN : option (text TokenJson);
  env_GOOGLE_CREDENTIALS : option (text KeysJson);
  file_TOKEN : option (text TokenJson);
  file_CREDENTIALS : option (text KeysJson);
  writeFile_TOKEN : WriteAnswer;   (* what a write of the token file meets *)
  this_auth : option OAuth2Client;
  trace : list Event          (* newest event first *)
}.

Definition M (A : Type) : Type := State -> Outcome A * State.

Definition ret {A} (a : A) : M A := fun s => (Return a, s).
Definition throw {A} (e : JsError) : M A := fun s => (Throw e, s).
Definition lift {A} (o : Outcome A) : M A := fun s => (o, s).

Definition bind {A B} (m : M A) (k : A -> M B) : M B :=
  fun s =>
    match m s with
    | (Return a, s') => k a s'
    | (Throw e, s') => (Throw e, s')
    end.

(** [try { m } catch (error) { h error }] *)
Definition try_catch {A} (m : M A) (h : JsError -> M A) : M A :=
  fun s =>
    match m s with
    | (Return a, s') => (Return a, s')
    | (Throw e, s') => h e s'
    end.

Declare Scope js_scope.
Delimit Scope js_scope with js.
Notation "x <- m ;; k" := (bind m (fun x => k))
  (at level 61, m at next level, right associativity) : js_scope.
Notation "m ;; k" := (bind m (fun _ => k))
  (at level 61, right associativity) : js_scope.
Open Scope js_scope.

(** State updates: one more event, another [this.auth], another content
    of the token file, another answer of the file system. *)
Definition log (ev : Event) (s : State) : State :=
  mkState (env_GOOGLE_TOKEN s) (env_GOOGLE_CREDENTIALS s)
          (file_TOKEN s) (file_CREDENTIALS s) (writeFile_TOKEN s) (this_auth s)
          (ev :: trace s).

Definition with_auth (a : option OAuth2Client) (s : State) : State :=
  mkState (env_GOOGLE_TOKEN s) (env_GOOGLE_CREDENTIALS s)
          (file_TOKEN s) (file_CREDENTIALS s) (writeFile_TOKEN s) a (trace s).

Definition with_token (c : option (text TokenJson)) (s : State) : State :=
  mkState (env_GOOGLE_TOKEN s) (env_GOOGLE_CREDENTIALS s)
          c (file_CREDENTIALS s) (writeFile_TOKEN s) (this_auth s) (trace s).

Definition with_writeFile (a : WriteAnswer) (s : State) : State :=
  mkState (env_GOOGLE_TOKEN s) (env_GOOGLE_CREDENTIALS s)
          (file_TOKEN s) (file_CREDENTIALS s) a (this_auth s) (trace s).

Definition emit (ev : Event) : M unit :=
  fun s => (Return tt, log ev s).

Definition console_error (message : string) : M unit :=
  emit (EvConsoleError message).

Definition get_auth : M (option OAuth2Client) :=
  fun s => (Return (this_auth s), s).

Definition set_auth (a : option OAuth2Client) : M unit :=
  fun s => (Return tt, with_auth a s).

(** [process.env.GOOGLE_TOKEN] and [process.env.GOOGLE_CREDENTIALS] *)
Definition getenv_GOOGLE_TOKEN : M (option (text TokenJson)) :=
  fun s => (Return (env_GOOGLE_TOKEN s), s).
Definition getenv_GOOGLE_CREDENTIALS : M (option (text KeysJson)) :=
  fun s => (Return (env_GOOGLE_CREDENTIALS s), s).

(** Truthiness of an environment variable: unset and the empty string are
    falsy. *)
Definition env_truthy {A} (v : option (text A)) : option (text A) :=
  match v with
  | Some EmptyText => None
  | Some t => Some t
  | None => None
  end.

(** [await fs.readFile(p)] *)
Definition readFile_TOKEN_PATH : M (text TokenJson) :=
  emit (EvReadFile TOKEN_PATH) ;;
  fun s => match file_TOKEN s with
           | Some t => (Return t, s)
           | None => (Throw ENOENT, s)
           end.

Definition readFile_CREDENTIALS_PATH : M (text KeysJson) :=
  emit (EvReadFile CREDENTIALS_PATH) ;;
  fun s => match file_CREDENTIALS s with
           | Some t => (Return t, s)
           | None => (Throw ENOENT, s)
           end.

Definition set_file_TOKEN (c : option (text TokenJson)) : M unit :=
  fun s => (Return tt, with_token c s).

Definition get_writeFile_TOKEN : M WriteAnswer :=
  fun s => (Return (writeFile_TOKEN s), s).

(** [await fs.writeFile(TOKEN_PATH, payload)].  The open with truncation
    and the write of the data are separate system calls: the first leaves
    the file empty, the second puts the payload in it (a payload of this
    size goes out in one call).  A call that is refused rejects the
    promise and ends the write there. *)
Definition open_truncate_TOKEN_PATH : M unit :=
  answer <- get_writeFile_TOKEN ;;
  match answer with
  | OpenRejected e => throw e
  | _ =>
      emit (EvOpenTruncate TOKEN_PATH) ;;
      set_file_TOKEN (Some EmptyText)
  end.

Definition write_data_TOKEN_PATH (payload : text TokenJson) : M unit :=
  answer <- get_writeFile_TOKEN ;;
  match answer with
  | WriteRejected e => throw e
  | _ =>
      emit (EvWriteData TOKEN_PATH) ;;
      set_file_TOKEN (Some payload)
  end.

Definition writeFile_TOKEN_PATH (payload : text TokenJson) : M unit :=
  open_truncate_TOKEN_PATH ;;
  write_data_TOKEN_PATH payload.

(** ** Remote collaborators *)

Record Remote := mkRemote {
  (** [client.refreshAccessToken()]: the [credentials] of the answer. *)
  refreshAccessToken : OAuth2Client -> Outcome Credentials;
  (** [client.getAccessToken()]: the client as the call leaves it (the
      library may renew the access token in place), or the rejection. *)
  getAccessToken : OAuth2Client -> Outcome OAuth2Client;
  (** [authenticate({scopes, keyfilePath})]: the interactive grant. *)
  authenticate : Outcome OAuth2Client
}.

(** ** The credential manager *)

Module CredentialManager.

Section WithRemote.

Variable R : Remote.

(** The lines both branches of [loadSavedCredentialsIfExist] share: pick
    the key, build the client, set the saved credentials on it. *)
Definition client_of (keys : json KeysJson) (saved : json TokenJson) : M OAuth2Client :=
  inst <- lift (prop keys installed) ;;
  alt <- lift (prop keys web) ;;
  let key := or_else inst alt in
  id <- lift (prop_opt key client_id) ;;
  secret <- lift (prop_opt key client_secret) ;;
  uris <- lift (prop_opt key redirect_uris) ;;
  uri0 <- lift (prop_opt uris (@hd_error string)) ;;
  let client := new_OAuth2 id secret uri0 in
  rt <- lift (prop saved tok_refresh_token) ;;
  at_ <- lift (prop saved tok_access_token) ;;
  tt_ <- lift (prop saved tok_token_type) ;;
  ed <- lift (prop saved tok_expiry_date) ;;
  ret (setCredentials client (mkCredentials rt at_ tt_ ed)).

(** serverv3.js, [loadSavedCredentialsIfExist]: the block of its [try]. *)
Definition read_saved_credentials : M (option OAuth2Client) :=
  env_token <- getenv_GOOGLE_TOKEN ;;
  match env_truthy env_token with
  | Some content =>
      saved <- lift (JSON_parse content) ;;
      env_keys <- getenv_GOOGLE_CREDENTIALS ;;
      keys <- match env_truthy env_keys with
              | Some k => lift (JSON_parse k)
              | None => buf <- readFile_CREDENTIALS_PATH ;; lift (JSON_parse buf)
              end ;;
      client <- client_of keys saved ;;
      console_error "✅ Token cargado desde variables de entorno" ;;
      ret (Some client)
  | None =>
      content <- readFile_TOKEN_PATH ;;
      saved <- lift (JSON_parse content) ;;
      buf <- readFile_CREDENTIALS_PATH ;;
      keys <- lift (JSON_parse buf) ;;
      client <- client_of keys saved ;;
      console_error "✅ Token cargado desde archivo" ;;
      ret (Some client)
  end.

(** serverv3.js, [loadSavedCredentialsIfExist]: the whole body sits in one
    [try]; its [catch] logs and returns [null]. *)
Definition loadSavedCredentialsIfExist : M (option OAuth2Client) :=
  try_catch
    read_saved_credentials
    (fun err =>
       console_error "ℹ️ No se encontró token guardado, se requiere autenticación" ;;
       ret None).

(** The token text [loadSavedCredentialsIfExist] reads: the environment
    override when it is set, the token file otherwise. *)
Definition token_source (s : State) : option (text TokenJson) :=
  match env_truthy (env_GOOGLE_TOKEN s) with
  | Some t => Some t
  | None => file_TOKEN s
  end.

(** The key text read with it: next to a token override, the key override
    when it is set; the key file in every other case. *)
Definition keys_source (s : State) : option (text KeysJson) :=
  match env_truthy (env_GOOGLE_TOKEN s) with
  | Some _ =>
      match env_truthy (env_GOOGLE_CREDENTIALS s) with
      | Some k => Some k
      | None => file_CREDENTIALS s
      end
  | None => file_CREDENTIALS s
  end.

(** What [JSON.parse] makes of a source, when it is there and is JSON. *)
Definition parsed {A} (source : option (text A)) : option (json A) :=
  match source with
  | Some (JsonText j) => Some j
  | _ => None
  end.

(** The client that parsed keys and a parsed token describe: both are
    objects and the keys hold an [installed] or [web] entry with
    [redirect_uris]. *)
Definition client_described (keys : json KeysJson) (saved : json TokenJson)
  : option OAuth2Client :=
  match keys, saved with
  | JObject ks, JObject tok =>
      match or_else (installed ks) (web ks) with
      | Some key =>
          match redirect_uris key with
          | Some uris =>
              Some (setCredentials
                      (new_OAuth2 (client_id key) (client_secret key) (hd_error uris))
                      (mkCredentials (tok_refresh_token tok) (tok_access_token tok)
                                     (tok_token_type tok) (tok_expiry_date tok)))
          | None => None
          end
      | None => None
      end
  | _, _ => None
  end.

(** The client the two sources of a state describe. *)
Definition described_client (s : State) : option OAuth2Client :=
  match parsed (token_source s), parsed (keys_source s) with
  | Some saved, Some keys => client_described keys saved
  | _, _ => None
  end.

(** A run that only read files and wrote to the console: environment,
    files and [this.auth] are as before. *)
Definition quiet_event (ev : Event) : Prop :=
  match ev with
  | EvConsoleError _ | EvReadFile _ => True
  | _ => False
  end.

Definition only_read (s s' : State) : Prop :=
  env_GOOGLE_TOKEN s' = env_GOOGLE_TOKEN s
  /\ env_GOOGLE_CREDENTIALS s' = env_GOOGLE_CREDENTIALS s
  /\ file_TOKEN s' = file_TOKEN s
  /\ file_CREDENTIALS s' = file_CREDENTIALS s
  /\ writeFile_TOKEN s' = writeFile_TOKEN s
  /\ this_auth s' = this_auth s
  /\ exists evs, trace s' = (evs ++ trace s)%list /\ Forall quiet_event evs.

(** A run from [s0] that only read, and that returned the client [found]
    or, when there is none, threw. *)
Definition finds (found : option OAuth2Client) (s0 : State)
           (r : Outcome (option OAuth2Client) * State) : Prop :=
  only_read s0 (snd r)
  /\ match found with
     | Some client => fst r = Return (Some client)
     | None => exists e, fst r = Throw e
     end.

(** A text that exists and that [JSON.parse] rejects. *)
Definition malformed {A} (source : option (text A)) : Prop :=
  exists t e, source = Some t /\ JSON_parse t = Throw e.

(** The object handed to [JSON.stringify] in [saveCredentials]. *)
Definition payload_of (key : Key) (c : Credentials) : TokenJson :=
  mkTokenJson (Some "authorized_user")
              (client_id key) (client_secret key)
              (refresh_token c) (access_token c) (token_type c) (expiry_date c).

(** serverv3.js, [saveCredentials]: everything up to the write. *)
Definition saveCredentials_payload (client : OAuth2Client) : M (text TokenJson) :=
  content <- readFile_CREDENTIALS_PATH ;;
  keys <- lift (JSON_parse content) ;;
  inst <- lift (prop keys installed) ;;
  alt <- lift (prop keys web) ;;
  key <- lift (prop_opt (or_else inst alt) (fun k => k)) ;;
  c <- lift (prop_opt (credentials client) (fun c => c)) ;;
  ret (JsonText (JObject (payload_of key c))).

Definition saveCredentials (client : OAuth2Client) : M unit :=
  emit EvSaveCredentials ;;
  payload <- saveCredentials_payload client ;;
  writeFile_TOKEN_PATH payload ;;
  console_error "✅ Credenciales guardadas exitosamente".

(** The key [saveCredentials] finds in the key file. *)
Definition key_on_file (s : State) : option Key :=
  match file_CREDENTIALS s with
  | Some (JsonText (JObject keys)) => or_else (installed keys) (web keys)
  | _ => None
  end.

(** Has [saveCredentials] what it needs to complete: a client key in the
    key file, credentials on the client, and a file system that accepts
    the write of the token file? *)
Definition can_save (client : OAuth2Client) (s : State) : bool :=
  match key_on_file s, credentials client, writeFile_TOKEN s with
  | Some _, Some _, Written => true
  | _, _, _ => false
  end.

(** The state a completed [saveCredentials] leaves: the calls it made, in
    order, and the token file holding the payload. *)
Definition saved (payload : TokenJson) (s : State) : State :=
  log (EvConsoleError "✅ Credenciales guardadas exitosamente")
      (with_token (Some (JsonText (JObject payload)))
         (log (EvWriteData TOKEN_PATH)
            (with_token (Some EmptyText)
               (log (EvOpenTruncate TOKEN_PATH)
                  (log (EvReadFile CREDENTIALS_PATH)
                     (log EvSaveCredentials s)))))).

(** The state a [saveCredentials] that throws leaves.  It threw before the
    token file was opened (no key, no credentials, or the open refused):
    the key file was read, nothing else happened. *)
Definition unsaved (s : State) : State :=
  log (EvReadFile CREDENTIALS_PATH) (log EvSaveCredentials s).

(** Or it threw inside [fs.writeFile], the data refused: the token file
    was opened and is left truncated. *)
Definition truncated (s : State) : State :=
  with_token (Some EmptyText) (log (EvOpenTruncate TOKEN_PATH) (unsaved s)).

(** The state in which a granted renewal saves: the refresh was called
    and [this.auth] already carries the credentials it returned. *)
Definition renewed (auth : OAuth2Client) (fresh : Credentials) (s : State) : State :=
  with_auth (Some (setCredentials auth fresh)) (log EvRefreshAccessToken s).

(** A run of [saveCredentials] that the process does not survive: it dies
    inside [fs.writeFile], after the file was opened and before the data
    reached it. *)
Definition saveCredentials_killed_in_write (client : OAuth2Client) : M unit :=
  emit EvSaveCredentials ;;
  payload <- saveCredentials_payload client ;;
  open_truncate_TOKEN_PATH.

(** [const { credentials } = await this.auth.refreshAccessToken();
     this.auth.setCredentials(credentials);
     await this.saveCredentials(this.auth);] *)
Definition refresh_and_save (auth : OAuth2Client) : M unit :=
  emit EvRefreshAccessToken ;;
  fresh <- lift (refreshAccessToken R auth) ;;
  set_auth (Some (setCredentials auth fresh)) ;;
  saveCredentials (setCredentials auth fresh).

(** [!expiry || expiry <= now] for an expiry that is absent or a number. *)
Definition expired (expiry : option Z) (now : Z) : bool :=
  match expiry with
  | None => true
  | Some e => (e =? 0) || (e <=? now)
  end.

(** [expiry - now < 5 * 60 * 1000], reached only with a number. *)
Definition expiring (expiry : option Z) (now : Z) : bool :=
  match expiry with
  | None => false
  | Some e => e - now <? 5 * 60 * 1000
  end.

(** serverv3.js, [ensureValidToken]; [now] is [new Date().getTime()]. *)
Definition ensureValidToken (now : Z) : M unit :=
  a <- get_auth ;;
  match a with
  | None => throw (Error "No hay autenticación disponible")
  | Some auth =>
      match credentials auth with
      | None => throw (Error "No hay autenticación disponible")
      | Some c =>
          let expiry := expiry_date c in
          if expired expiry now then
            console_error "🔄 Token expirado, renovando..." ;;
            try_catch
              (refresh_and_save auth ;;
               console_error "✅ Token renovado exitosamente")
              (fun error =>
                 console_error ("❌ Error al renovar token: " ++ err_message error) ;;
                 console_error "⚠️ Necesitas volver a autenticarte. Borra token.json y reinicia." ;;
                 throw (Error "Token inválido, se requiere re-autenticación"))
          else if expiring expiry now then
            console_error "🔄 Token por expirar, renovando preventivamente..." ;;
            try_catch
              (refresh_and_save auth ;;
               console_error "✅ Token renovado preventivamente")
              (fun error =>
                 console_error ("⚠️ Error al renovar token preventivamente: "
                                ++ err_message error))
          else ret tt
      end
  end.

(** The tail of [authorize]: the interactive grant, then the save. *)
Definition authenticate_from_scratch : M OAuth2Client :=
  emit EvAuthenticate ;;
  client <- lift (authenticate R) ;;
  match credentials client with
  | Some _ => saveCredentials client
  | None => ret tt
  end ;;
  ret client.

(** serverv3.js, [authorize] *)
Definition authorize : M OAuth2Client :=
  loaded <- loadSavedCredentialsIfExist ;;
  match loaded with
  | Some client =>
      try_catch
        (emit EvGetAccessToken ;;
         lift (getAccessToken R client))
        (fun error =>
           console_error "⚠️ Token guardado inválido, requiere re-autenticación" ;;
           authenticate_from_scratch)
  | None => authenticate_from_scratch
  end.

(** ** The tool-call handler *)

Record ToolResult := mkToolResult {
  content_text : string;
  isError : bool
}.

Definition tool_names : list string :=
  [ "gmail_list_messages"; "gmail_get_message"; "gmail_send_message";
    "gmail_create_draft";
    "calendar_list_events"; "calendar_create_event"; "calendar_update_event";
    "calendar_delete_event"; "calendar_find_free_slots";
    "docs_create"; "docs_get"; "docs_append_text"; "docs_insert_text";
    "docs_replace_text"; "docs_format_text"; "docs_list_recent"; "docs_share";
    "fit_get_activity_summary"; "fit_record_activity_session" ].

Definition known_tool (name : string) : bool :=
  existsb (String.eqb name) tool_names.

(** The bodies of the tool methods are remote calls: [methods name] is what
    the method behind [name] does. *)
Variable methods : string -> M ToolResult.

(** serverv3.js, the [CallToolRequestSchema] handler *)
Definition callTool (now : Z) (name : string) : M ToolResult :=
  try_catch
    (ensureValidToken now ;;
     if known_tool name
     then emit (EvTool name) ;; methods name
     else throw (Error ("Herramienta desconocida: " ++ name)))
    (fun error =>
       console_error ("Error en " ++ name ++ ": " ++ err_message error) ;;
       ret (mkToolResult ("Error: " ++ err_message error) true)).

End WithRemote.

End CredentialManager.

(** ** The earlier server (same repository, before token renewal)

    It has no [ensureValidToken]; its [loadSavedCredentialsIfExist] reads
    only the token file, its [saveCredentials] keeps only the refresh
    token, and its [authorize] returns a loaded client without a probe. *)

Module Legacy.

Section WithRemote.

Variable R : Remote.

(** [google.auth.JWT(credentials)], a library call. *)
Variable JWT : json TokenJson -> Outcome OAuth2Client.

Definition loadSavedCredentialsIfExist : M (option OAuth2Client) :=
  try_catch
    (content <- readFile_TOKEN_PATH ;;
     saved <- lift (JSON_parse content) ;;
     client <- lift (JWT saved) ;;
     ret (Some client))
    (fun err => ret None).

Definition payload_of (key : Key) (c : Credentials) : TokenJson :=
  mkTokenJson (Some "authorized_user")
              (client_id key) (client_secret key)
              (refresh_token c) None None None.

Definition saveCredentials (client : OAuth2Client) : M unit :=
  emit EvSaveCredentials ;;
  content <- readFile_CREDENTIALS_PATH ;;
  keys <- lift (JSON_parse content) ;;
  inst <- lift (prop keys installed) ;;
  alt <- lift (prop keys web) ;;
  key <- lift (prop_opt (or_else inst alt) (fun k => k)) ;;
  c <- lift (prop_opt (credentials client) (fun c => c)) ;;
  writeFile_TOKEN_PATH (JsonText (JObject (payload_of key c))).

Definition authorize : M OAuth2Client :=
  loaded <- loadSavedCredentialsIfExist ;;
  match loaded with
  | Some client => ret client
  | None =>
      emit EvAuthenticate ;;
      client <- lift (authenticate R) ;;
      match credentials client with
      | Some _ => saveCredentials client
      | None => ret tt
      end ;;
      ret client
  end.

End WithRemote.

End Legacy.

(** ** The free-slot finder *)

Module FreeSlotFinder.

(** A JS [Date]: its time value, or [None] for Invalid Date. *)
Definition Date := option Z.

(** [event.start] / [event.end]: a timed entry carries [dateTime], an
    all-day entry carries [date].  A field holds the instant [new Date]
    reads from its string. *)
Record EventTime := mkEventTime {
  dateTime : option Z;
  date : option Z
}.

Record CalendarEvent := mkCalendarEvent {
  start : EventTime;
  end_ : EventTime
}.

(** [new Date(t.dateTime || t.date)]; [new Date(undefined)] is invalid. *)
Definition new_Date (t : EventTime) : Date :=
  match dateTime t with
  | Some d => Some d
  | None => date t
  end.

(** An element of [freeSlots]; [slot_start] and [slot_end] are the
    instants their ISO strings denote. *)
Record FreeSlot := mkFreeSlot {
  slot_start : Z;
  slot_end : Z;
  slot_duration : Z
}.

(** [if (to - from >= duration * 60000) freeSlots.push({start: from, end:
    to, duration: Math.floor((to - from) / 60000)})]: what is pushed.  A
    comparison with [NaN] is false, so nothing is pushed unless both dates
    are valid.  [duration] is the minimum in minutes, a whole number of
    either sign; instants and spans are whole numbers of milliseconds, on
    which the arithmetic of JS numbers is that of [Z] as long as they stay
    safe integers ([safe_integer] below). *)
Definition gap (from to : Date) (duration : Z) : list FreeSlot :=
  match from, to with
  | Some c, Some s =>
      if duration * 60000 <=? s - c
      then [mkFreeSlot c s ((s - c) / 60000)]
      else []
  | _, _ => []
  end.

(** [eventEnd > currentTime ? eventEnd : currentTime] *)
Definition advance (currentTime eventEnd : Date) : Date :=
  match eventEnd, currentTime with
  | Some e, Some c => if c <? e then eventEnd else currentTime
  | _, _ => currentTime
  end.

(** One round of the [for] loop on the pair (currentTime, freeSlots). *)
Definition visit (duration : Z) (st : Date * list FreeSlot) (event : CalendarEvent)
  : Date * list FreeSlot :=
  let eventStart := new_Date (start event) in
  let eventEnd := new_Date (end_ event) in
  (advance (fst st) eventEnd, (snd st ++ gap (fst st) eventStart duration)%list).

(** serverv3.js, [findFreeSlots], from [const events = res.data.items || []]
    to the end of the computation of [freeSlots]; [items] is
    [res.data.items], in the order the calendar service lists it
    ([orderBy: "startTime"]). *)
Definition findFreeSlots (startDate endDate : Date) (duration : Z)
           (items : option (list CalendarEvent)) : list FreeSlot :=
  let events := match items with Some l => l | None => [] end in
  let st := fold_left (visit duration) events (startDate, []) in
  (snd st ++ gap (fst st) endDate duration)%list.


(** A timed busy interval [(s, e)] as a calendar event. *)
Definition busy (b : Z * Z) : CalendarEvent :=
  mkCalendarEvent (mkEventTime (Some (fst b)) None) (mkEventTime (Some (snd b)) None).

(** An all-day busy interval. *)
Definition all_day (b : Z * Z) : CalendarEvent :=
  mkCalendarEvent (mkEventTime None (Some (fst b))) (mkEventTime None (Some (snd b))).

(** The half-open span [start, end) of a free slot. *)
Definition span (f : FreeSlot) : Z * Z := (slot_start f, slot_end f).

(** Does the instant [t] lie in the half-open interval [i]? *)
Definition covers (t : Z) (i : Z * Z) : bool :=
  (fst i <=? t) && (t <? snd i).

(** How many intervals of [l] the instant [t] lies in. *)
Definition cover (t : Z) (l : list (Z * Z)) : nat :=
  List.length (filter (covers t) l).

(** Busy intervals as the round-trip property wants them: inside the
    window (an interval may be empty, a zero-length entry), listed in
    start order, no two sharing an instant. *)
Definition within (ws we : Z) (b : Z * Z) : Prop :=
  ws <= fst b /\ fst b <= snd b /\ snd b <= we.

Definition by_start (a b : Z * Z) : Prop := fst a <= fst b.

Definition disjoint (a b : Z * Z) : Prop :=
  forall t, covers t a = true -> covers t b = false.

(** The indicator of the window [ws, we). *)
Definition in_window (ws we t : Z) : nat :=
  if (ws <=? t) && (t <? we) then 1%nat else 0%nat.

(** The free and busy intervals reconstruct the window: every instant of
    the window lies in exactly one of them, every other instant in none. *)
Definition reconstructs (ws we : Z) (l : list (Z * Z)) : Prop :=
  forall t, cover t l = in_window ws we t.

(** No instant lies in two of the intervals, nor outside the window. *)
Definition fits (ws we : Z) (l : list (Z * Z)) : Prop :=
  forall t, (cover t l <= in_window ws we t)%nat.

(** The loop unrolled from a given cursor: the slots pushed from
    [currentTime] on, trailing gap included. *)
Fixpoint scan (duration : Z) (events : list CalendarEvent)
         (currentTime endDate : Date) : list FreeSlot :=
  match events with
  | [] => gap currentTime endDate duration
  | event :: rest =>
      (gap currentTime (new_Date (start event)) duration
       ++ scan duration rest (advance currentTime (new_Date (end_ event))) endDate)%list
  end.

(** The gaps the busy intervals leave in the window, read off the list
    of busy intervals: before each busy interval, the stretch from the
    latest end so far (the start of the window when there is none) to the
    start of the interval; after the last one, the stretch up to the end
    of the window. *)
Fixpoint gaps (latest : Z) (bs : list (Z * Z)) (we : Z) : list (Z * Z) :=
  match bs with
  | [] => [(latest, we)]
  | b :: rest => (latest, fst b) :: gaps (Z.max latest (snd b)) rest we
  end.

(** A stretch of time as a free slot: its two ends and its length in
    whole minutes, rounded down. *)
Definition slot_of (g : Z * Z) : FreeSlot :=
  mkFreeSlot (fst g) (snd g) ((snd g - fst g) / 60000).



(** Is the slot at least [duration] minutes long? *)
Definition long_enough (duration : Z) (f : FreeSlot) : bool :=
  duration * 60000 <=? slot_end f - slot_start f.

End FreeSlotFinder.

From Stdlib Require Import Ascii NArith.

(** ** Start-up *)

Module Server.

Import CredentialManager.

Section WithRemote.

Variable R : Remote.

(** serverv3.js, [initialize].  The service handles built from [this.auth]
    ([google.gmail], [google.calendar], ...) are plain constructors and
    have no counterpart in the state. *)
Definition initialize : M unit :=
  try_catch
    (client <- authorize R ;;
     set_auth (Some client) ;;
     console_error "✅ Autenticación exitosa - Servidor listo")
    (fun error =>
       console_error ("❌ Error durante la autenticación: " ++ err_message error) ;;
       throw error).

End WithRemote.

End Server.

(** ** Who [authorize] ends up with *)

Module Startup.

Import CredentialManager.

(** The client the interactive grant leaves [authorize] with: the granted
    client, unless the grant is refused or the client carries credentials
    and the save fails, for want of a key in the key file or because the
    file system refuses the write of the token file. *)
Definition granted_client (R : Remote) (s : State) : option OAuth2Client :=
  match authenticate R with
  | Return granted =>
      match credentials granted with
      | Some _ => if can_save granted s then Some granted else None
      | None => Some granted
      end
  | Throw _ => None
  end.

(** The client [authorize] returns, or [None] when it throws: the saved
    client as the probe leaves it, else the granted one. *)
Definition startup_client (R : Remote) (s : State) : option OAuth2Client :=
  match described_client s with
  | Some loaded =>
      match getAccessToken R loaded with
      | Return probed => Some probed
      | Throw _ => granted_client R s
      end
  | None => granted_client R s
  end.

End Startup.

(** ** Gmail: the raw message of [sendGmailMessage] and [createGmailDraft] *)

Module Gmail.

(** A JS string is the sequence of its UTF-8 bytes, which is what
    [Buffer.from(message)] holds. *)

Definition LF : string := String (ascii_of_nat 10) EmptyString.

(** [[`To: ${to}`, `Subject: ${subject}`, "", body].join("\n")] *)
Definition raw_message (to subject body : string) : string :=
  String.concat LF ["To: " ++ to; "Subject: " ++ subject; ""; body].

Definition base64_digits : string :=
  "ABCDEFGHIJKLMNOPQRSTUVWXYZabcdefghijklmnopqrstuvwxyz0123456789+/".

(** The base64 digit of a sextet. *)
Definition digit (n : N) : ascii :=
  match String.get (N.to_nat n) base64_digits with
  | Some c => c
  | None => "="%char
  end.

(** [buf.toString("base64")] (Node): three bytes give four digits; one or
    two bytes left over give two or three digits, padded with "=" to
    four. *)
Fixpoint toString_base64 (buf : string) : string :=
  match buf with
  | EmptyString => EmptyString
  | String a EmptyString =>
      let x := N_of_ascii a in
      String (digit (x / 4))
        (String (digit ((x mod 4) * 16)) "==")
  | String a (String b EmptyString) =>
      let x := N_of_ascii a in
      let y := N_of_ascii b in
      String (digit (x / 4))
        (String (digit ((x mod 4) * 16 + y / 16))
           (String (digit ((y mod 16) * 4)) "="))
  | String a (String b (String c rest)) =>
      let x := N_of_ascii a in
      let y := N_of_ascii b in
      let z := N_of_ascii c in
      String (digit (x / 4))
        (String (digit ((x mod 4) * 16 + y / 16))
           (String (digit ((y mod 16) * 4 + z / 64))
              (String (digit (z mod 64)) (toString_base64 rest))))
  end%N.

Definition swap (from to c : ascii) : ascii :=
  if Ascii.eqb c from then to else c.

(** [s.replace(/c/g, d)] for single characters [c] and [d]. *)
Fixpoint replace_all (from to : ascii) (s : string) : string :=
  match s with
  | EmptyString => EmptyString
  | String c rest => String (swap from to c) (replace_all from to rest)
  end.

(** [s.replace(/c+$/, "")]: the longest run of [c] at the end is removed. *)
Fixpoint strip_trailing (c : ascii) (s : string) : string :=
  match s with
  | EmptyString => EmptyString
  | String x rest =>
      match strip_trailing c rest with
      | EmptyString => if Ascii.eqb x c then EmptyString else String x EmptyString
      | kept => String x kept
      end
  end.

(** [Buffer.from(message).toString("base64").replace(/\+/g, "-")
     .replace(/\//g, "_").replace(/=+$/, "")] *)
Definition encodedMessage (message : string) : string :=
  strip_trailing "="
    (replace_all "/" "_" (replace_all "+" "-" (toString_base64 message))).

(** The digit of a sextet after the two replacements. *)
Definition url_digit (k : N) : ascii :=
  swap "/" "_" (swap "+" "-" (digit k)).

(** The [raw] field both methods send. *)
Definition raw (to subject body : string) : string :=
  encodedMessage (raw_message to subject body).

(** *** The reader's side *)

(** The characters of the URL-safe alphabet: letters, digits, "-", "_". *)
Definition url_safe (c : ascii) : bool :=
  let n := N_of_ascii c in
  ((65 <=? n) && (n <=? 90) || (97 <=? n) && (n <=? 122)
   || (48 <=? n) && (n <=? 57) || (n =? 45) || (n =? 95))%N.

(** The sextet a URL-safe digit stands for (RFC 4648, table 2). *)
Definition url_value (c : ascii) : option N :=
  let n := N_of_ascii c in
  (if (65 <=? n) && (n <=? 90) then Some (n - 65)
   else if (97 <=? n) && (n <=? 122) then Some (n - 71)
   else if (48 <=? n) && (n <=? 57) then Some (n + 4)
   else if n =? 45 then Some 62
   else if n =? 95 then Some 63
   else None)%N.

(** Decoding of unpadded base64url, as the receiver of [raw] does it. *)
Fixpoint base64url_decode (s : string) : option string :=
  match s with
  | EmptyString => Some EmptyString
  | String _ EmptyString => None
  | String c0 (String c1 EmptyString) =>
      match url_value c0, url_value c1 with
      | Some v0, Some v1 =>
          Some (String (ascii_of_N (v0 * 4 + v1 / 16)) EmptyString)
      | _, _ => None
      end
  | String c0 (String c1 (String c2 EmptyString)) =>
      match url_value c0, url_value c1, url_value c2 with
      | Some v0, Some v1, Some v2 =>
          Some (String (ascii_of_N (v0 * 4 + v1 / 16))
                  (String (ascii_of_N ((v1 mod 16) * 16 + v2 / 4)) EmptyString))
      | _, _, _ => None
      end
  | String c0 (String c1 (String c2 (String c3 rest))) =>
      match url_value c0, url_value c1, url_value c2, url_value c3,
            base64url_decode rest with
      | Some v0, Some v1, Some v2, Some v3, Some tail =>
          Some (String (ascii_of_N (v0 * 4 + v1 / 16))
                  (String (ascii_of_N ((v1 mod 16) * 16 + v2 / 4))
                     (String (ascii_of_N ((v2 mod 4) * 64 + v3)) tail)))
      | _, _, _, _, _ => None
      end
  end%N.

(** Does the character occur in the string? *)
Fixpoint occurs (c : ascii) (s : string) : bool :=
  match s with
  | EmptyString => false
  | String x rest => Ascii.eqb x c || occurs c rest
  end.

(** All the characters of a string. *)
Fixpoint every (p : ascii -> bool) (s : string) : bool :=
  match s with
  | EmptyString => true
  | String x rest => p x && every p rest
  end.

End Gmail.

(** ** Calendar: the event [updateCalendarEvent] sends *)

Module Calendar.

(** [event.start] / [event.end] as the calendar service holds them. *)
Record EventTime := mkEventTime {
  dateTime : option string;
  date : option string;
  timeZone : option string
}.

Section WithOther.

(** The properties of an event the method copies without looking at
    them ([...existing.data]). *)
Variable Other : Type.

Record EventData := mkEventData {
  summary : option string;
  description : option string;
  location : option string;
  start : option EventTime;
  end_ : option EventTime;
  other : Other
}.

(** The optional arguments of the tool. *)
Record UpdateArgs := mkUpdateArgs {
  arg_summary : option string;
  arg_description : option string;
  arg_startDateTime : option string;
  arg_endDateTime : option string;
  arg_location : option string
}.

(** Truthiness of an optional string: absent and empty are falsy. *)
Definition given (v : option string) : bool :=
  match v with
  | Some s => negb (String.eqb s "")
  | None => false
  end.

(** [a || b] *)
Definition or_keep (a b : option string) : option string :=
  if given a then a else b.

(** serverv3.js, [updateCalendarEvent]: the [event] sent as [requestBody],
    from the arguments and from [existing.data]. *)
Definition updated_event (args : UpdateArgs) (existing : EventData) : EventData :=
  let event :=
    mkEventData (or_keep (arg_summary args) (summary existing))
                (or_keep (arg_description args) (description existing))
                (or_keep (arg_location args) (location existing))
                (start existing) (end_ existing) (other existing) in
  let event :=
    if given (arg_startDateTime args)
    then mkEventData (summary event) (description event) (location event)
                     (Some (mkEventTime (arg_startDateTime args) None
                                        (Some "America/Montevideo")))
                     (end_ event) (other event)
    else event in
  if given (arg_endDateTime args)
  then mkEventData (summary event) (description event) (location event)
                   (start event)
                   (Some (mkEventTime (arg_endDateTime args) None
                                      (Some "America/Montevideo")))
                   (other event)
  else event.

(** Two sets of arguments in one: those of [later] where given, those of
    [earlier] elsewhere. *)
Definition over (later earlier : UpdateArgs) : UpdateArgs :=
  mkUpdateArgs (or_keep (arg_summary later) (arg_summary earlier))
               (or_keep (arg_description later) (arg_description earlier))
               (or_keep (arg_startDateTime later) (arg_startDateTime earlier))
               (or_keep (arg_endDateTime later) (arg_endDateTime earlier))
               (or_keep (arg_location later) (arg_location earlier)).

End WithOther.

End Calendar.

(** ** Docs: the text [getDoc] extracts *)

Module Docs.

(** A property that holds a string, or is missing, or is [null]. *)
Inductive js_text :=
| Undefined
| Null
| Text (s : string).

(** The string a template or [+=] makes of it. *)
Definition shown (v : js_text) : string :=
  match v with
  | Undefined => "undefined"
  | Null => "null"
  | Text s => s
  end.

Record TextRun := mkTextRun { content : js_text }.

Record ParagraphElement := mkParagraphElement { textRun : option TextRun }.

Record Paragraph := mkParagraph { elements : option (list ParagraphElement) }.

(** An element of the body: a paragraph, or something else (a table, a
    section break) without the [paragraph] property. *)
Record StructuralElement := mkStructuralElement { paragraph : option Paragraph }.

Record Body := mkBody { body_content : option (list StructuralElement) }.

Record Document := mkDocument { title : js_text; body : option Body }.

(** The inner loop: [for (const textElement of element.paragraph.elements
    || []) if (textElement.textRun) textContent +=
    textElement.textRun.content]. *)
Definition add_runs (textContent : string) (p : Paragraph) : string :=
  fold_left
    (fun acc textElement =>
       match textRun textElement with
       | Some run => acc ++ shown (content run)
       | None => acc
       end)
    (match elements p with Some l => l | None => [] end)
    textContent.

(** The outer loop over [doc.data.body.content]. *)
Definition add_elements (textContent : string) (l : list StructuralElement) : string :=
  fold_left
    (fun acc element =>
       match paragraph element with
       | Some p => add_runs acc p
       | None => acc
       end)
    l textContent.

(** serverv3.js, [getDoc]: [textContent] after the loops. *)
Definition textContent (doc : Document) : string :=
  match body doc with
  | Some b =>
      match body_content b with
      | Some l => add_elements "" l
      | None => ""
      end
  | None => ""
  end.

(** A document whose body is the given list of elements. *)
Definition document_of (t : js_text) (l : list StructuralElement) : Document :=
  mkDocument t (Some (mkBody (Some l))).

End Docs.

(** ** Gmail: the messages [listGmailMessages] details *)

Module GmailList.

(** An entry of [res.data.messages]. *)
Record MessageRef := mkMessageRef {
  id : option string;
  threadId : option string
}.

(** [detail.data] of a [messages.get]. *)
Record Payload := mkPayload { headers : option (list (string * string)) }.

Record DetailData := mkDetailData {
  payload : option Payload;
  snippet : option string
}.

Record MessageDetail := mkMessageDetail {
  md_id : option string;
  md_threadId : option string;
  md_headers : option (list (string * string));
  md_snippet : option string
}.

Section WithGmail.

(** [this.gmail.users.messages.list({userId, q, maxResults})]: the
    [messages] of the answer. *)
Variable list_messages : string -> Z -> Outcome (option (list MessageRef)).

(** [this.gmail.users.messages.get({userId, id, format, metadataHeaders})] *)
Variable get_message : option string -> Outcome DetailData.

(** The callback mapped over the messages. *)
Definition detail_of (msg : MessageRef) : Outcome MessageDetail :=
  match get_message (id msg) with
  | Throw e => Throw e
  | Return data =>
      match payload data with
      | Some p =>
          Return (mkMessageDetail (id msg) (threadId msg) (headers p) (snippet data))
      | None => Throw (TypeError "Cannot read properties of undefined")
      end
  end.

(** [Promise.all]: the results in order, or a rejection as soon as one of
    the promises rejects.  Which rejection comes first is a matter of
    timing; the model takes the first in list order. *)
Fixpoint Promise_all {A} (promises : list (Outcome A)) : Outcome (list A) :=
  match promises with
  | [] => Return []
  | Throw e :: _ => Throw e
  | Return a :: rest =>
      match Promise_all rest with
      | Return l => Return (a :: l)
      | Throw e => Throw e
      end
  end.

(** serverv3.js, [listGmailMessages]: [messageDetails], the value the
    result serializes.  [query] and [maxResults] default to "" and 10. *)
Definition listGmailMessages (query : option string) (maxResults : option Z)
  : Outcome (list MessageDetail) :=
  let q := match query with Some q => q | None => "" end in
  let n := match maxResults with Some n => n | None => 10 end in
  match list_messages q n with
  | Throw e => Throw e
  | Return found =>
      let messages := match found with Some l => l | None => [] end in
      Promise_all (map detail_of (firstn 5 messages))
  end.

End WithGmail.

End GmailList.

(** ** Sample data for concrete runs *)

Module Scenarios.

Import CredentialManager.

Definition sample_key : Key :=
  mkKey (Some "client-id") (Some "client-secret") (Some ["http://localhost"]).

Definition sample_keys : KeysJson := mkKeysJson (Some sample_key) None.

Definition sample_credentials (expiry : option Z) : Credentials :=
  mkCredentials (Some "refresh-1") (Some "access-1") (Some "Bearer") expiry.

Definition sample_client (expiry : option Z) : OAuth2Client :=
  setCredentials
    (new_OAuth2 (Some "client-id") (Some "client-secret") (Some "http://localhost"))
    (sample_credentials expiry).

(** The token document [saveCredentials] leaves for [sample_client]. *)
Definition sample_token (expiry : option Z) : text TokenJson :=
  JsonText (JObject (payload_of sample_key (sample_credentials expiry))).

(** A process with the key file in place, no environment override, the
    given token file, a file system that accepts writes, and the given
    [this.auth]. *)
Definition sample_state (token_file : option (text TokenJson))
           (auth : option OAuth2Client) : State :=
  mkState None None token_file (Some (JsonText (JObject sample_keys))) Written auth [].

(** The authorization server refuses everything. *)
Definition remote_down : Remote :=
  mkRemote (fun _ => Throw (Error "invalid_grant"))
           (fun _ => Throw (Error "invalid_grant"))
           (Throw (Error "access_denied")).

(** The authorization server answers: a refresh returns [fresh], the probe
    succeeds and leaves the client as it is, the interactive grant returns
    [granted]. *)
Definition remote_up (fresh : Credentials) (granted : OAuth2Client) : Remote :=
  mkRemote (fun _ => Return fresh) (fun client => Return client) (Return granted).

(** The error of a write the file system refuses for want of room. *)
Definition EFBIG : JsError := mkJsError "Error" "EFBIG: file too large, write".

(** Tool methods that answer with the name of the tool. *)
Definition echo_methods (name : string) : M ToolResult :=
  ret (mkToolResult name false).

End Scenarios.

(** * Properties of the free-slot finder *)

Module FreeSlotTheory.

Import FreeSlotFinder.

#[local] Arguments gap : simpl never.
#[local] Arguments advance : simpl never.

Lemma fold_visit_scan (duration : Z) (endDate : Date) (events : list CalendarEvent) :
  forall (c : Date) (acc : list FreeSlot),
    (snd (fold_left (visit duration) events (c, acc))
     ++ gap (fst (fold_left (visit duration) events (c, acc))) endDate duration)%list
    = (acc ++ scan duration events c endDate)%list.
Proof.
  induction events as [|ev rest IH]; intros c acc; simpl.
  - reflexivity.
  - unfold visit at 2 4; simpl. rewrite IH. now rewrite <- app_assoc.
Qed.

Lemma findFreeSlots_scan (startDate endDate : Date) (duration : Z)
      (events : list CalendarEvent) :
  findFreeSlots startDate endDate duration (Some events)
  = scan duration events startDate endDate.
Proof.
  unfold findFreeSlots. now rewrite fold_visit_scan.
Qed.

Lemma advance_valid (c e : Z) : advance (Some c) (Some e) = Some (Z.max c e).
Proof.
  unfold advance. destruct (c <? e) eqn:E.
  - apply Z.ltb_lt in E. f_equal. lia.
  - apply Z.ltb_ge in E. f_equal. lia.
Qed.

Lemma advance_invalid_cursor (e : Date) : advance None e = None.
Proof. unfold advance. now destruct e. Qed.

Lemma scan_invalid_cursor (duration : Z) (endDate : Date) (events : list CalendarEvent) :
  scan duration events None endDate = [].
Proof.
  induction events as [|ev rest IH]; simpl.
  - reflexivity.
  - now rewrite advance_invalid_cursor, IH.
Qed.

(** Every slot pushed spans at least the minimum duration. *)
Lemma gap_long_enough (from to : Date) (duration : Z) (f : FreeSlot) :
  In f (gap from to duration) ->
  from = Some (slot_start f)
  /\ to = Some (slot_end f)
  /\ duration * 60000 <= slot_end f - slot_start f
  /\ slot_duration f = (slot_end f - slot_start f) / 60000.
Proof.
  unfold gap. destruct from as [c|], to as [s|]; simpl; try tauto.
  destruct (duration * 60000 <=? s - c) eqn:E; simpl; try tauto.
  intros [<-|[]]. apply Z.leb_le in E. simpl. auto.
Qed.

(** The cursor never moves back: no slot starts before it. *)
Lemma scan_starts_after_cursor (duration : Z) (endDate : Date)
      (events : list CalendarEvent) :
  forall c f, In f (scan duration events (Some c) endDate) -> c <= slot_start f.
Proof.
  induction events as [|ev rest IH]; intros c f; simpl.
  - intros H. apply gap_long_enough in H. destruct H as [H _].
    injection H as H. lia.
  - rewrite in_app_iff. intros [H|H].
    + apply gap_long_enough in H. destruct H as [H _]. injection H as H. lia.
    + destruct (new_Date (end_ ev)) as [e|].
      * rewrite advance_valid in H. apply IH in H. lia.
      * unfold advance in H. now apply IH in H.
Qed.

(** Decide the comparisons of a goal by linear arithmetic. *)
Ltac decide_leb :=
  repeat match goal with
         | |- context [?a <=? ?b] =>
             first [ replace (a <=? b) with true by (symmetry; apply Z.leb_le; lia)
                   | replace (a <=? b) with false by (symmetry; apply Z.leb_gt; lia) ]
         | |- context [?a <? ?b] =>
             first [ replace (a <? b) with true by (symmetry; apply Z.ltb_lt; lia)
                   | replace (a <? b) with false by (symmetry; apply Z.ltb_ge; lia) ]
         end.

(** C6.  On any day, the window 09:00 to 17:00 with a minimum of 30 minutes
    and the busy intervals 10:00-10:15 and 12:00-13:00 yields exactly the
    free slots 09:00-10:00 (60 minutes), 10:15-12:00 (105 minutes) and
    13:00-17:00 (240 minutes), in that order.  [day] is midnight of the day
    in epoch milliseconds. *)
Theorem findFreeSlots_office_day (day : Z) :
  let hh_mm (h m : Z) := day + h * 3600000 + m * 60000 in
  findFreeSlots (Some (hh_mm 9 0)) (Some (hh_mm 17 0)) 30
                (Some [ busy (hh_mm 10 0, hh_mm 10 15);
                        busy (hh_mm 12 0, hh_mm 13 0) ])
  = [ mkFreeSlot (hh_mm 9 0) (hh_mm 10 0) 60;
      mkFreeSlot (hh_mm 10 15) (hh_mm 12 0) 105;
      mkFreeSlot (hh_mm 13 0) (hh_mm 17 0) 240 ].
Proof.
  intros hh_mm. subst hh_mm. cbv beta.
  rewrite findFreeSlots_scan. simpl.
  unfold new_Date; cbn [dateTime date].
  rewrite !advance_valid.
  rewrite !Z.max_r by lia.
  unfold gap. decide_leb. simpl.
  repeat f_equal.
  - replace (day + 36000000 + 0 - (day + 32400000 + 0)) with (60 * 60000) by lia.
    now rewrite Z.div_mul.
  - replace (day + 43200000 + 0 - (day + 36000000 + 900000)) with (105 * 60000) by lia.
    now rewrite Z.div_mul.
  - replace (day + 61200000 + 0 - (day + 46800000 + 0)) with (240 * 60000) by lia.
    now rewrite Z.div_mul.
Qed.

Lemma scan_busy (duration : Z) (endDate c : Date) (b : Z * Z)
      (rest : list CalendarEvent) :
  scan duration (busy b :: rest) c endDate
  = (gap c (Some (fst b)) duration
     ++ scan duration rest (advance c (Some (snd b))) endDate)%list.
Proof. reflexivity. Qed.











(** Zero-length busy entries with a minimum duration of 0: the cursor
    stalls and the same empty slot is pushed twice. *)
Example findFreeSlots_stalls_on_empty_entries :
  findFreeSlots (Some 0) (Some 0) 0 (Some (map busy [(0, 0); (0, 0)]))
  = [ mkFreeSlot 0 0 0; mkFreeSlot 0 0 0; mkFreeSlot 0 0 0 ].
Proof. reflexivity. Qed.

Lemma cover_app (t : Z) (l1 l2 : list (Z * Z)) :
  cover t (l1 ++ l2) = (cover t l1 + cover t l2)%nat.
Proof. unfold cover. now rewrite filter_app, length_app. Qed.

Lemma cover_cons (t : Z) (i : Z * Z) (l : list (Z * Z)) :
  cover t (i :: l) = ((if covers t i then 1 else 0) + cover t l)%nat.
Proof. unfold cover. simpl. now destruct (covers t i). Qed.

Lemma cover_nil (t : Z) : cover t [] = 0%nat.
Proof. reflexivity. Qed.

Ltac split_comparisons :=
  repeat match goal with
         | |- context [?a <=? ?b] => destruct (Z.leb_spec a b)
         | |- context [?a <? ?b] => destruct (Z.ltb_spec a b)
         end.

(** Settle whether two given intervals share an instant. *)
Ltac share_no_instant :=
  let t := fresh "t" in
  unfold disjoint, covers; cbn [fst snd]; intros t;
  split_comparisons; cbn;
  let H := fresh "H" in
  intros H; first [reflexivity | discriminate H | lia].

(** A slot covers the instants of its window, and all of them when no
    gap is too short; a slot pushed for a negative gap covers none. *)
Lemma cover_gap (t c s duration : Z) :
  (cover t (map span (gap (Some c) (Some s) duration)) <= in_window c s t)%nat
  /\ (duration <= 0 ->
      cover t (map span (gap (Some c) (Some s) duration)) = in_window c s t).
Proof.
  unfold gap.
  destruct (Z.leb_spec (duration * 60000) (s - c)) as [Hlen|Hlen].
  - cbn [map]. rewrite cover_cons, cover_nil.
    unfold covers, span, in_window; cbn [slot_start slot_end fst snd].
    split; [|intros _]; split_comparisons; simpl; lia.
  - cbn [map]. rewrite cover_nil. split; [lia|]. intros Hd.
    unfold in_window. split_comparisons; simpl; lia.
Qed.

(** In start order, an interval that shares no instant with an earlier
    one starts at or after its end, or is empty. *)
Lemma disjoint_in_start_order (a b : Z * Z) :
  fst a <= fst b -> fst b <= snd b -> disjoint a b ->
  snd a <= fst b \/ fst b = snd b.
Proof.
  intros Hab Hb Hdis.
  destruct (Z.le_gt_cases (snd a) (fst b)) as [H|H]; [now left|right].
  destruct (Z.eq_dec (fst b) (snd b)) as [E|E]; [exact E|].
  specialize (Hdis (fst b)). unfold covers in Hdis.
  assert (Ha : (fst a <=? fst b) && (fst b <? snd a) = true)
    by (apply andb_true_iff; split; [apply Z.leb_le | apply Z.ltb_lt]; lia).
  apply Hdis in Ha. apply andb_false_iff in Ha.
  destruct Ha as [Ha|Ha]; [apply Z.leb_gt in Ha | apply Z.ltb_ge in Ha]; lia.
Qed.

(** From a cursor that every busy interval still to come starts at or
    after, unless it is empty: the free slots and the busy intervals
    never overlap nor leave the window, and with no minimum duration they
    fill it. *)
Lemma cover_scan (duration we : Z) (bs : list (Z * Z)) :
  forall c t,
    Forall (fun b => fst b <= snd b <= we /\ (c <= fst b \/ fst b = snd b)) bs ->
    StronglySorted by_start bs ->
    ForallOrdPairs disjoint bs ->
    (cover t (map span (scan duration (map busy bs) (Some c) (Some we)) ++ bs)
     <= in_window c we t)%nat
    /\ (duration <= 0 ->
        cover t (map span (scan duration (map busy bs) (Some c) (Some we)) ++ bs)
        = in_window c we t).
Proof.
  induction bs as [|b rest IH]; intros c t Hin Hsort Hdis.
  - cbn [map scan]. rewrite app_nil_r. apply cover_gap.
  - inversion Hin as [|? ? [[Hse Hew] Hahead] Hrest]; subst.
    apply StronglySorted_inv in Hsort. destruct Hsort as [Hsort Hfirst].
    inversion Hdis as [|? ? Hbd Hdis']; subst.
    cbn [map]. rewrite scan_busy, advance_valid.
    rewrite map_app, <- app_assoc, cover_app.
    change (?l ++ b :: rest)%list with (l ++ [b] ++ rest)%list.
    rewrite app_assoc, cover_app.
    rewrite (cover_app t _ [b]), cover_cons, cover_nil.
    assert (Hnext : Forall (fun b' => fst b' <= snd b' <= we
                                      /\ (Z.max c (snd b) <= fst b'
                                          \/ fst b' = snd b')) rest).
    { rewrite Forall_forall in *. intros b' Hb'.
      destruct (Hrest b' Hb') as [[Hse' Hew'] Hahead'].
      split; [now split|].
      destruct (@disjoint_in_start_order b b' (Hfirst b' Hb') Hse' (Hbd b' Hb'))
        as [H|H]; [|now right].
      destruct Hahead' as [H'|H']; [left; lia | now right]. }
    destruct (IH (Z.max c (snd b)) t Hnext Hsort Hdis') as [IHle IHeq].
    rewrite cover_app in IHle, IHeq.
    destruct (cover_gap t c (fst b) duration) as [Gle Geq].
    split.
    + revert IHle Gle. unfold in_window, covers.
      split_comparisons; simpl; lia.
    + intros Hd. specialize (IHeq Hd). specialize (Geq Hd).
      revert IHeq Geq. unfold in_window, covers.
      split_comparisons; simpl; lia.
Qed.

Lemma gap_filter (from to : Date) (duration : Z) :
  0 <= duration ->
  gap from to duration = filter (long_enough duration) (gap from to 0).
Proof.
  intros Hd. unfold gap. destruct from as [c|], to as [s|]; try reflexivity.
  destruct (Z.leb_spec (0 * 60000) (s - c)) as [H0|H0].
  - cbn [filter]. unfold long_enough; cbn [slot_start slot_end].
    now destruct (duration * 60000 <=? s - c).
  - cbn [filter]. destruct (Z.leb_spec (duration * 60000) (s - c)); [lia|reflexivity].
Qed.

(** The minimum duration only filters: the cursor moves the same way
    whatever it is. *)
Lemma scan_filter (duration : Z) (endDate : Date) (events : list CalendarEvent) :
  0 <= duration ->
  forall c,
    scan duration events c endDate
    = filter (long_enough duration) (scan 0 events c endDate).
Proof.
  intros Hd. induction events as [|ev rest IH]; intros c; cbn [scan].
  - now apply gap_filter.
  - rewrite filter_app, <- IH. f_equal. now apply gap_filter.
Qed.

Lemma new_Date_all_day (b : Z * Z) :
  new_Date (start (all_day b)) = new_Date (start (busy b))
  /\ new_Date (end_ (all_day b)) = new_Date (end_ (busy b)).
Proof. split; reflexivity. Qed.

(** What is pushed for a stretch: its slot when it is long enough. *)
Lemma gap_slot_of (c s duration : Z) :
  gap (Some c) (Some s) duration
  = filter (long_enough duration) [slot_of (c, s)].
Proof.
  unfold gap, slot_of, long_enough. cbn [filter fst snd slot_start slot_end].
  now destruct (duration * 60000 <=? s - c).
Qed.

(** The loop pushes the gaps that are long enough, in order. *)
Lemma scan_gaps (duration we : Z) (bs : list (Z * Z)) :
  forall c,
    scan duration (map busy bs) (Some c) (Some we)
    = filter (long_enough duration) (map slot_of (gaps c bs we)).
Proof.
  induction bs as [|b rest IH]; intros c.
  - cbn [map scan gaps]. apply gap_slot_of.
  - cbn [map gaps]. rewrite scan_busy, advance_valid, IH, gap_slot_of.
    now rewrite <- filter_app.
Qed.

(** C5, as the code has it.  For a window and busy intervals inside it,
    listed in start order, no two sharing an instant: the free slots
    together with the busy intervals never overlap and never leave the
    window; the free slots are exactly the gaps the busy intervals leave
    (from the start of the window or the latest busy end to the next busy
    start, and from the last busy end to the end of the window) that last
    at least the minimum duration, in order, each with its length in
    whole minutes; and with a minimum duration of 0 or less (nothing
    filtered) free and busy intervals reconstruct the window exactly. *)
Theorem findFreeSlots_round_trip (ws we duration : Z) (bs : list (Z * Z)) :
  Forall (within ws we) bs ->
  StronglySorted by_start bs ->
  ForallOrdPairs disjoint bs ->
  let freeSlots := findFreeSlots (Some ws) (Some we) duration (Some (map busy bs)) in
  fits ws we (map span freeSlots ++ bs)
  /\ freeSlots = filter (long_enough duration) (map slot_of (gaps ws bs we))
  /\ (duration <= 0 -> reconstructs ws we (map span freeSlots ++ bs)).
Proof.
  intros Hin Hsort Hdis freeSlots. subst freeSlots.
  rewrite !findFreeSlots_scan.
  assert (Hahead : Forall (fun b => fst b <= snd b <= we
                                    /\ (ws <= fst b \/ fst b = snd b)) bs).
  { apply Forall_impl with (2 := Hin). unfold within. intros b Hb.
    split; [lia | left; lia]. }
  split; [|split].
  - intros t. now apply cover_scan.
  - apply scan_gaps.
  - intros Hd t. now apply cover_scan.
Qed.

Lemma findFreeSlots_round_trip_witness :
  let bs := [(600000, 1200000); (900000, 900000); (1200000, 3000000)] in
  (Forall (within 0 3600000) bs
   /\ StronglySorted by_start bs
   /\ ForallOrdPairs disjoint bs)
  /\ findFreeSlots (Some 0) (Some 3600000) 0 (Some (map busy bs))
     = [ mkFreeSlot 0 600000 10; mkFreeSlot 1200000 1200000 0;
         mkFreeSlot 3000000 3600000 10 ]
  /\ reconstructs 0 3600000
       (map span (findFreeSlots (Some 0) (Some 3600000) 0 (Some (map busy bs))) ++ bs).
Proof.
  intros bs.
  assert (H2 : Forall (within 0 3600000) bs)
    by (repeat constructor; unfold within; simpl; lia).
  assert (H3 : StronglySorted by_start bs)
    by (repeat constructor; unfold by_start; simpl; lia).
  assert (H4 : ForallOrdPairs disjoint bs)
    by (repeat constructor; share_no_instant).
  split; [repeat split; assumption|].
  destruct (findFreeSlots_round_trip 0 H2 H3 H4) as (_ & Hgaps & Hall).
  split; [rewrite Hgaps; reflexivity | apply Hall; lia].
Defined.

(** C5 as stated fails: a gap shorter than the minimum duration is dropped,
    so the instants of that gap are in no interval.  Window of one hour,
    minimum 30 minutes, busy from minute 10 to the end: nothing is free,
    and the first instant of the window is covered by nothing. *)
Lemma findFreeSlots_round_trip_fails :
  let bs := [(600000, 3600000)] in
  let freeSlots := findFreeSlots (Some 0) (Some 3600000) 30 (Some (map busy bs)) in
  Forall (within 0 3600000) bs
  /\ StronglySorted by_start bs
  /\ ForallOrdPairs disjoint bs
  /\ freeSlots = []
  /\ ~ reconstructs 0 3600000 (map span freeSlots ++ bs).
Proof.
  intros bs freeSlots.
  split; [repeat constructor; unfold within; simpl; lia|].
  split; [repeat constructor|]. split; [repeat constructor|].
  split; [reflexivity|].
  intros H. specialize (H 0). vm_compute in H. discriminate.
Qed.

(** The start order is needed: listed the other way round, two busy
    intervals give a free slot that runs over the second. *)
Example findFreeSlots_needs_start_order :
  findFreeSlots (Some 0) (Some 3600000) 0
                (Some (map busy [(1800000, 2400000); (600000, 1200000)]))
  = [ mkFreeSlot 0 1800000 30; mkFreeSlot 2400000 3600000 20 ].
Proof. reflexivity. Qed.

End FreeSlotTheory.


(** * Properties of the credential manager *)

Module CredentialTheory.

Import CredentialManager.

(** ** Running the monad *)

Lemma bind_Return {A B} (m : M A) (k : A -> M B) (s s' : State) (a : A) :
  m s = (Return a, s') -> bind m k s = k a s'.
Proof. intros H. unfold bind. now rewrite H. Qed.

Lemma bind_Throw {A B} (m : M A) (k : A -> M B) (s s' : State) (e : JsError) :
  m s = (Throw e, s') -> bind m k s = (Throw e, s').
Proof. intros H. unfold bind. now rewrite H. Qed.

Lemma try_catch_Return {A} (m : M A) (h : JsError -> M A) (s s' : State) (a : A) :
  m s = (Return a, s') -> try_catch m h s = (Return a, s').
Proof. intros H. unfold try_catch. now rewrite H. Qed.

Lemma try_catch_Throw {A} (m : M A) (h : JsError -> M A) (s s' : State) (e : JsError) :
  m s = (Throw e, s') -> try_catch m h s = h e s'.
Proof. intros H. unfold try_catch. now rewrite H. Qed.

Lemma bind_emit {B} (ev : Event) (k : unit -> M B) (s : State) :
  bind (emit ev) k s = k tt (log ev s).
Proof. reflexivity. Qed.

Lemma bind_console_error {B} (message : string) (k : unit -> M B) (s : State) :
  bind (console_error message) k s = k tt (log (EvConsoleError message) s).
Proof. reflexivity. Qed.

Lemma readFile_CREDENTIALS_PATH_run (s : State) :
  readFile_CREDENTIALS_PATH s
  = (match file_CREDENTIALS s with
     | Some t => Return t
     | None => Throw ENOENT
     end,
     log (EvReadFile CREDENTIALS_PATH) s).
Proof.
  unfold readFile_CREDENTIALS_PATH. rewrite bind_emit.
  cbn [file_CREDENTIALS log]. now destruct (file_CREDENTIALS s).
Qed.

Lemma readFile_TOKEN_PATH_run (s : State) :
  readFile_TOKEN_PATH s
  = (match file_TOKEN s with
     | Some t => Return t
     | None => Throw ENOENT
     end,
     log (EvReadFile TOKEN_PATH) s).
Proof.
  unfold readFile_TOKEN_PATH. rewrite bind_emit.
  cbn [file_TOKEN log]. now destruct (file_TOKEN s).
Qed.

(** ** [saveCredentials] *)

Lemma saveCredentials_payload_done (client : OAuth2Client) (s : State)
      (key : Key) (c : Credentials) :
  key_on_file s = Some key ->
  credentials client = Some c ->
  saveCredentials_payload client s
  = (Return (JsonText (JObject (payload_of key c))),
     log (EvReadFile CREDENTIALS_PATH) s).
Proof.
  unfold key_on_file. intros Hkey Hc.
  unfold saveCredentials_payload, bind, lift, ret.
  rewrite readFile_CREDENTIALS_PATH_run.
  destruct (file_CREDENTIALS s) as [[| |[|keys]]|]; try discriminate.
  cbn. rewrite Hkey, Hc. reflexivity.
Qed.

Lemma saveCredentials_payload_failed (client : OAuth2Client) (s : State) :
  key_on_file s = None \/ credentials client = None ->
  exists e,
    saveCredentials_payload client s
    = (Throw e, log (EvReadFile CREDENTIALS_PATH) s).
Proof.
  unfold key_on_file. intros H.
  unfold saveCredentials_payload, bind, lift, ret.
  rewrite readFile_CREDENTIALS_PATH_run.
  destruct (file_CREDENTIALS s) as [[| |[|keys]]|]; cbn;
    try (eexists; reflexivity).
  destruct (or_else (installed keys) (web keys)) as [key|]; cbn;
    [|eexists; reflexivity].
  destruct H as [H|H]; [discriminate|]. rewrite H. cbn. eexists; reflexivity.
Qed.

Lemma writeFile_TOKEN_PATH_run (payload : text TokenJson) (s : State) :
  writeFile_TOKEN_PATH payload s
  = match writeFile_TOKEN s with
    | Written =>
        (Return tt,
         with_token (Some payload)
           (log (EvWriteData TOKEN_PATH)
              (with_token (Some EmptyText) (log (EvOpenTruncate TOKEN_PATH) s))))
    | OpenRejected e => (Throw e, s)
    | WriteRejected e =>
        (Throw e, with_token (Some EmptyText) (log (EvOpenTruncate TOKEN_PATH) s))
    end.
Proof.
  unfold writeFile_TOKEN_PATH, open_truncate_TOKEN_PATH, write_data_TOKEN_PATH,
    bind, get_writeFile_TOKEN.
  destruct (writeFile_TOKEN s) eqn:E; cbn; try rewrite E; reflexivity.
Qed.

(** With a key and credentials at hand, the outcome of [saveCredentials]
    is the answer of the file system. *)
Lemma saveCredentials_with_key (client : OAuth2Client) (s : State)
      (key : Key) (c : Credentials) :
  key_on_file s = Some key ->
  credentials client = Some c ->
  saveCredentials client s
  = match writeFile_TOKEN s with
    | Written => (Return tt, saved (payload_of key c) s)
    | OpenRejected e => (Throw e, unsaved s)
    | WriteRejected e => (Throw e, truncated s)
    end.
Proof.
  intros Hkey Hc. unfold saveCredentials. rewrite bind_emit.
  erewrite bind_Return
    by (apply saveCredentials_payload_done; [exact Hkey | exact Hc]).
  cbv beta. unfold bind at 1. rewrite writeFile_TOKEN_PATH_run.
  cbn [writeFile_TOKEN log].
  destruct (writeFile_TOKEN s); reflexivity.
Qed.

Lemma saveCredentials_done (client : OAuth2Client) (s : State)
      (key : Key) (c : Credentials) :
  key_on_file s = Some key ->
  credentials client = Some c ->
  writeFile_TOKEN s = Written ->
  saveCredentials client s = (Return tt, saved (payload_of key c) s).
Proof.
  intros Hkey Hc Hw.
  rewrite (@saveCredentials_with_key client s key c Hkey Hc). now rewrite Hw.
Qed.

Lemma saveCredentials_failed (client : OAuth2Client) (s : State) :
  key_on_file s = None \/ credentials client = None ->
  exists e, saveCredentials client s = (Throw e, unsaved s).
Proof.
  intros H. unfold saveCredentials. rewrite bind_emit.
  destruct (@saveCredentials_payload_failed client (log EvSaveCredentials s) H)
    as [e He].
  exists e. now erewrite bind_Throw by exact He.
Qed.

(** Whatever happens, [saveCredentials] returns with the payload in the
    token file, or throws before the token file is opened, or throws with
    the token file truncated. *)
Lemma saveCredentials_cases (client : OAuth2Client) (s : State) :
  (exists key c,
      key_on_file s = Some key /\ credentials client = Some c
      /\ writeFile_TOKEN s = Written
      /\ saveCredentials client s = (Return tt, saved (payload_of key c) s))
  \/ (exists e,
         (key_on_file s = None \/ credentials client = None
          \/ writeFile_TOKEN s = OpenRejected e)
         /\ saveCredentials client s = (Throw e, unsaved s))
  \/ (exists e,
         writeFile_TOKEN s = WriteRejected e
         /\ saveCredentials client s = (Throw e, truncated s)).
Proof.
  destruct (key_on_file s) as [key|] eqn:Hkey;
    [destruct (credentials client) as [c|] eqn:Hc|].
  - rewrite (@saveCredentials_with_key client s key c Hkey Hc).
    destruct (writeFile_TOKEN s) as [|e|e] eqn:Hw.
    + left. exists key, c. repeat split.
    + right. left. exists e. split; [right; right|]; reflexivity.
    + right. right. exists e. split; reflexivity.
  - right. left.
    destruct (@saveCredentials_failed client s (or_intror Hc)) as [e He].
    exists e. split; [right; now left | exact He].
  - right. left.
    destruct (@saveCredentials_failed client s (or_introl Hkey)) as [e He].
    exists e. split; [now left | exact He].
Qed.

(** [saveCredentials] returns exactly when it has what it needs. *)
Lemma saveCredentials_returns_iff (client : OAuth2Client) (s : State) :
  fst (saveCredentials client s) = Return tt <-> can_save client s = true.
Proof.
  unfold can_save.
  destruct (saveCredentials_cases client s)
    as [(key & c & Hkey & Hc & Hw & Hsave)
       | [(e & Hwhy & Hsave) | (e & Hw & Hsave)]];
    rewrite Hsave; cbn [fst].
  - rewrite Hkey, Hc, Hw. tauto.
  - split; [discriminate|].
    destruct Hwhy as [H | [H | H]]; rewrite H.
    + discriminate.
    + destruct (key_on_file s); discriminate.
    + destruct (key_on_file s), (credentials client); discriminate.
  - split; [discriminate|].
    rewrite Hw. destruct (key_on_file s), (credentials client); discriminate.
Qed.

(** A [saveCredentials] that throws leaves the token file as it was or
    empty; it touches nothing else but the trace. *)
Lemma saveCredentials_thrown (client : OAuth2Client) (s s' : State) (e : JsError) :
  saveCredentials client s = (Throw e, s') ->
  s' = unsaved s \/ (writeFile_TOKEN s = WriteRejected e /\ s' = truncated s).
Proof.
  destruct (saveCredentials_cases client s)
    as [(key & c & _ & _ & _ & Hsave)
       | [(e' & _ & Hsave) | (e' & Hw & Hsave)]];
    rewrite Hsave; intros H; [discriminate| |].
  - injection H as _ <-. now left.
  - injection H as <- <-. right. now split.
Qed.

(** A save killed inside [fs.writeFile] is the first part of a save. *)
Lemma saveCredentials_killed_done (client : OAuth2Client) (s : State)
      (key : Key) (c : Credentials) :
  key_on_file s = Some key ->
  credentials client = Some c ->
  writeFile_TOKEN s = Written ->
  saveCredentials_killed_in_write client s = (Return tt, truncated s).
Proof.
  intros Hkey Hc Hw. unfold saveCredentials_killed_in_write. rewrite bind_emit.
  erewrite bind_Return
    by (apply saveCredentials_payload_done; [exact Hkey | exact Hc]).
  cbv beta. unfold open_truncate_TOKEN_PATH, bind, get_writeFile_TOKEN.
  cbn [writeFile_TOKEN log]. rewrite Hw. reflexivity.
Qed.

(** ** [ensureValidToken] *)

Lemma refresh_and_save_refused (R : Remote) (auth : OAuth2Client) (s : State)
      (err : JsError) :
  refreshAccessToken R auth = Throw err ->
  refresh_and_save R auth s = (Throw err, log EvRefreshAccessToken s).
Proof.
  intros H. unfold refresh_and_save. rewrite bind_emit.
  unfold bind at 1. unfold lift. now rewrite H.
Qed.

Lemma refresh_and_save_granted (R : Remote) (auth : OAuth2Client) (s : State)
      (fresh : Credentials) :
  refreshAccessToken R auth = Return fresh ->
  refresh_and_save R auth s
  = saveCredentials (setCredentials auth fresh)
                    (with_auth (Some (setCredentials auth fresh))
                               (log EvRefreshAccessToken s)).
Proof.
  intros H. unfold refresh_and_save. rewrite bind_emit.
  unfold bind at 1. unfold lift. rewrite H. reflexivity.
Qed.

(** The ways the renewal can go: the refresh is refused; the refresh is
    granted and saved; the refresh is granted and the save throws, before
    the token file is opened or with the token file truncated. *)
Lemma refresh_and_save_cases (R : Remote) (auth : OAuth2Client) (s : State) :
  (exists err,
      refreshAccessToken R auth = Throw err
      /\ refresh_and_save R auth s = (Throw err, log EvRefreshAccessToken s))
  \/ (exists fresh key,
         refreshAccessToken R auth = Return fresh
         /\ key_on_file s = Some key
         /\ writeFile_TOKEN s = Written
         /\ refresh_and_save R auth s
            = (Return tt, saved (payload_of key fresh) (renewed auth fresh s)))
  \/ (exists fresh e,
         refreshAccessToken R auth = Return fresh
         /\ (key_on_file s = None \/ writeFile_TOKEN s = OpenRejected e)
         /\ refresh_and_save R auth s = (Throw e, unsaved (renewed auth fresh s)))
  \/ (exists fresh e,
         refreshAccessToken R auth = Return fresh
         /\ writeFile_TOKEN s = WriteRejected e
         /\ refresh_and_save R auth s = (Throw e, truncated (renewed auth fresh s))).
Proof.
  destruct (refreshAccessToken R auth) as [fresh|err] eqn:Href.
  - right.
    rewrite (@refresh_and_save_granted R auth s fresh Href).
    fold (renewed auth fresh s).
    destruct (saveCredentials_cases (setCredentials auth fresh) (renewed auth fresh s))
      as [(key & c & Hkey & Hc & Hw & Hsave)
         | [(e & Hwhy & Hsave) | (e & Hw & Hsave)]].
    + left. exists fresh, key. injection Hc as <-. repeat split; assumption.
    + right. left. exists fresh, e. split; [reflexivity|]. split; [|exact Hsave].
      destruct Hwhy as [H | [H | H]]; [now left | discriminate H | now right].
    + right. right. exists fresh, e. repeat split; assumption.
  - left. exists err. split; [reflexivity|].
    now apply refresh_and_save_refused.
Qed.

Lemma ensureValidToken_expired_branch
      (R : Remote) (now : Z) (s : State) (auth : OAuth2Client) (c : Credentials) :
  this_auth s = Some auth ->
  credentials auth = Some c ->
  expired (expiry_date c) now = true ->
  ensureValidToken R now s
  = try_catch
      (refresh_and_save R auth ;;
       console_error "✅ Token renovado exitosamente")
      (fun error =>
         console_error ("❌ Error al renovar token: " ++ err_message error) ;;
         console_error "⚠️ Necesitas volver a autenticarte. Borra token.json y reinicia." ;;
         throw (Error "Token inválido, se requiere re-autenticación"))
      (log (EvConsoleError "🔄 Token expirado, renovando...") s).
Proof.
  intros Hauth Hc Hexp. unfold ensureValidToken.
  rewrite (@bind_Return _ _ get_auth _ s s (this_auth s)) by reflexivity.
  rewrite Hauth, Hc, Hexp. reflexivity.
Qed.

Lemma ensureValidToken_expiring_branch
      (R : Remote) (now : Z) (s : State) (auth : OAuth2Client) (c : Credentials) :
  this_auth s = Some auth ->
  credentials auth = Some c ->
  expired (expiry_date c) now = false ->
  expiring (expiry_date c) now = true ->
  ensureValidToken R now s
  = try_catch
      (refresh_and_save R auth ;;
       console_error "✅ Token renovado preventivamente")
      (fun error =>
         console_error ("⚠️ Error al renovar token preventivamente: "
                        ++ err_message error))
      (log (EvConsoleError "🔄 Token por expirar, renovando preventivamente...") s).
Proof.
  intros Hauth Hc Hexp Hing. unfold ensureValidToken.
  rewrite (@bind_Return _ _ get_auth _ s s (this_auth s)) by reflexivity.
  rewrite Hauth, Hc, Hexp, Hing. reflexivity.
Qed.

Lemma expired_absent_or_past (expiry : option Z) (now : Z) :
  (expiry = None \/ exists e, expiry = Some e /\ e <= now) ->
  expired expiry now = true.
Proof.
  intros [-> | (e & -> & He)]; [reflexivity|].
  unfold expired. apply orb_true_iff. right. now apply Z.leb_le.
Qed.

Lemma expiring_soon (e now : Z) :
  now < e < now + 5 * 60 * 1000 -> e <> 0 ->
  expired (Some e) now = false /\ expiring (Some e) now = true.
Proof.
  intros He H0. unfold expired, expiring. split.
  - apply orb_false_iff. split; [now apply Z.eqb_neq | apply Z.leb_gt; lia].
  - apply Z.ltb_lt. lia.
Qed.

(** Exhibit the events a run added in front of a trace. *)
Ltac find_prefix :=
  first [ exists []; reflexivity
        | eexists [_]; reflexivity
        | eexists [_; _]; reflexivity
        | eexists [_; _; _]; reflexivity
        | eexists [_; _; _; _]; reflexivity
        | eexists [_; _; _; _; _]; reflexivity
        | eexists [_; _; _; _; _; _]; reflexivity
        | eexists [_; _; _; _; _; _; _]; reflexivity
        | eexists [_; _; _; _; _; _; _; _]; reflexivity
        | eexists [_; _; _; _; _; _; _; _; _]; reflexivity ].

(** Run a [try] whose body is a renewal followed by a log line. *)
Ltac run_renewal Hrun :=
  first [ erewrite try_catch_Return
            by (erewrite bind_Return by exact Hrun; reflexivity)
        | erewrite try_catch_Throw
            by (erewrite bind_Throw by exact Hrun; reflexivity) ].

(** C10.  Without an authenticated client ([this.auth] is null, or it has
    no credentials) [ensureValidToken] throws "No hay autenticación
    disponible" at once: the state it leaves is the state it found, so no
    refresh was attempted (the trace is unchanged), no credential was
    touched and the token file was not written. *)
Theorem ensureValidToken_without_auth (R : Remote) (now : Z) (s : State) :
  (this_auth s = None
   \/ exists auth, this_auth s = Some auth /\ credentials auth = None) ->
  ensureValidToken R now s
  = (Throw (Error "No hay autenticación disponible"), s).
Proof.
  intros H. unfold ensureValidToken.
  rewrite (@bind_Return _ _ get_auth _ s s (this_auth s)) by reflexivity.
  destruct H as [H | (auth & H & Hc)]; rewrite H.
  - reflexivity.
  - rewrite Hc. reflexivity.
Qed.

Lemma ensureValidToken_without_auth_witness :
  ensureValidToken Scenarios.remote_down 1000 (Scenarios.sample_state None None)
  = (Throw (Error "No hay autenticación disponible"),
     Scenarios.sample_state None None).
Proof.
  apply ensureValidToken_without_auth. left. reflexivity.
Defined.

(** C1.  With an expiry that is absent or not after the current time,
    [ensureValidToken] announces the renewal and calls the refresh before
    anything else.  If the refresh fails, [ensureValidToken] throws "Token
    inválido, se requiere re-autenticación" and leaves the client and the
    token file as they were; the tool call then returns a failed result
    ([isError]) carrying that message, and the tool itself is not run: the
    trace (newest first) ends with the log line of the handler and holds
    no tool event. *)
Theorem ensureValidToken_expired_refresh_mandatory
        (R : Remote) (now : Z) (s : State) (auth : OAuth2Client) (c : Credentials) :
  this_auth s = Some auth ->
  credentials auth = Some c ->
  (expiry_date c = None \/ exists e, expiry_date c = Some e /\ e <= now) ->
  (exists later,
      trace (snd (ensureValidToken R now s))
      = (later ++ EvRefreshAccessToken
               :: EvConsoleError "🔄 Token expirado, renovando..."
               :: trace s)%list)
  /\ forall err,
      refreshAccessToken R auth = Throw err ->
      let message := "Token inválido, se requiere re-autenticación" in
      fst (ensureValidToken R now s) = Throw (Error message)
      /\ this_auth (snd (ensureValidToken R now s)) = this_auth s
      /\ file_TOKEN (snd (ensureValidToken R now s)) = file_TOKEN s
      /\ forall (methods : string -> M ToolResult) (name : string),
          fst (callTool R methods now name s)
          = Return (mkToolResult ("Error: " ++ message) true)
          /\ trace (snd (callTool R methods now name s))
             = EvConsoleError ("Error en " ++ name ++ ": " ++ message)
               :: EvConsoleError "⚠️ Necesitas volver a autenticarte. Borra token.json y reinicia."
               :: EvConsoleError ("❌ Error al renovar token: " ++ err_message err)
               :: EvRefreshAccessToken
               :: EvConsoleError "🔄 Token expirado, renovando..."
               :: trace s.
Proof.
  intros Hauth Hc Hexp. apply expired_absent_or_past in Hexp.
  pose proof (@ensureValidToken_expired_branch R now s auth c Hauth Hc Hexp) as Hrun.
  set (s1 := log (EvConsoleError "🔄 Token expirado, renovando...") s) in Hrun.
  split.
  - rewrite Hrun.
    destruct (refresh_and_save_cases R auth s1)
      as [(err & _ & H)
         | [(fresh & key & _ & _ & _ & H)
           | [(fresh & e & _ & _ & H) | (fresh & e & _ & _ & H)]]];
      run_renewal H; find_prefix.
  - intros err Herr message.
    pose proof (@refresh_and_save_refused R auth s1 err Herr) as H.
    assert (Hens : ensureValidToken R now s
                   = (Throw (Error message),
                      log (EvConsoleError "⚠️ Necesitas volver a autenticarte. Borra token.json y reinicia.")
                          (log (EvConsoleError ("❌ Error al renovar token: " ++ err_message err))
                               (log EvRefreshAccessToken s1)))).
    { rewrite Hrun. run_renewal H. reflexivity. }
    rewrite Hens. repeat split.
    + unfold callTool. erewrite try_catch_Throw
        by (erewrite bind_Throw by exact Hens; reflexivity).
      reflexivity.
    + unfold callTool. erewrite try_catch_Throw
        by (erewrite bind_Throw by exact Hens; reflexivity).
      reflexivity.
Qed.

Lemma ensureValidToken_expired_refresh_mandatory_witness :
  let s := Scenarios.sample_state (Some (Scenarios.sample_token (Some 1000)))
                                  (Some (Scenarios.sample_client (Some 1000))) in
  (this_auth s = Some (Scenarios.sample_client (Some 1000))
   /\ credentials (Scenarios.sample_client (Some 1000))
      = Some (Scenarios.sample_credentials (Some 1000))
   /\ 1000 <= 2000)
  /\ fst (ensureValidToken Scenarios.remote_down 2000 s)
     = Throw (Error "Token inválido, se requiere re-autenticación")
  /\ fst (callTool Scenarios.remote_down Scenarios.echo_methods 2000
                   "gmail_list_messages" s)
     = Return (mkToolResult "Error: Token inválido, se requiere re-autenticación" true).
Proof.
  intros s.
  assert (Hle : 1000 <= 2000) by lia.
  destruct (@ensureValidToken_expired_refresh_mandatory
              Scenarios.remote_down 2000 s
              (Scenarios.sample_client (Some 1000))
              (Scenarios.sample_credentials (Some 1000))
              eq_refl eq_refl
              (or_intror (ex_intro _ 1000 (conj eq_refl Hle)))) as [_ H].
  destruct (H (Error "invalid_grant") eq_refl) as (H1 & _ & _ & H2).
  split; [repeat split; assumption|].
  split; [exact H1 | apply H2].
Defined.

(** C2.  With an expiry strictly between the current time and five minutes
    later, [ensureValidToken] announces the preventive renewal and calls
    the refresh, and it returns normally whatever the refresh does; when
    the refresh fails, the client keeps its credentials and the token file
    is not touched.  The expiry is a real instant, not the number 0 (which
    JS takes for an absent expiry): that holds whenever the clock is not
    before the epoch. *)
Theorem ensureValidToken_expiring_refresh_best_effort
        (R : Remote) (now : Z) (s : State) (auth : OAuth2Client) (c : Credentials)
        (e : Z) :
  this_auth s = Some auth ->
  credentials auth = Some c ->
  expiry_date c = Some e ->
  now < e < now + 5 * 60 * 1000 ->
  e <> 0 ->
  (exists later,
      trace (snd (ensureValidToken R now s))
      = (later ++ EvRefreshAccessToken
               :: EvConsoleError "🔄 Token por expirar, renovando preventivamente..."
               :: trace s)%list)
  /\ fst (ensureValidToken R now s) = Return tt
  /\ forall err,
      refreshAccessToken R auth = Throw err ->
      this_auth (snd (ensureValidToken R now s)) = Some auth
      /\ file_TOKEN (snd (ensureValidToken R now s)) = file_TOKEN s
      /\ trace (snd (ensureValidToken R now s))
         = EvConsoleError ("⚠️ Error al renovar token preventivamente: "
                           ++ err_message err)
           :: EvRefreshAccessToken
           :: EvConsoleError "🔄 Token por expirar, renovando preventivamente..."
           :: trace s.
Proof.
  intros Hauth Hc He Hsoon H0.
  destruct (expiring_soon Hsoon H0) as [Hexp Hing]. rewrite <- He in Hexp, Hing.
  pose proof (@ensureValidToken_expiring_branch R now s auth c Hauth Hc Hexp Hing)
    as Hrun.
  set (s1 := log (EvConsoleError "🔄 Token por expirar, renovando preventivamente...") s)
    in Hrun.
  rewrite Hrun. split; [|split].
  - destruct (refresh_and_save_cases R auth s1)
      as [(err & _ & H)
         | [(fresh & key & _ & _ & _ & H)
           | [(fresh & err & _ & _ & H) | (fresh & err & _ & _ & H)]]];
      run_renewal H; find_prefix.
  - destruct (refresh_and_save_cases R auth s1)
      as [(err & _ & H)
         | [(fresh & key & _ & _ & _ & H)
           | [(fresh & err & _ & _ & H) | (fresh & err & _ & _ & H)]]];
      run_renewal H; reflexivity.
  - intros err Herr.
    pose proof (@refresh_and_save_refused R auth s1 err Herr) as H.
    run_renewal H. cbn. repeat split. exact Hauth.
Qed.

Lemma ensureValidToken_expiring_refresh_best_effort_witness :
  let s := Scenarios.sample_state (Some (Scenarios.sample_token (Some 1060000)))
                                  (Some (Scenarios.sample_client (Some 1060000))) in
  (1000000 < 1060000 < 1000000 + 5 * 60 * 1000 /\ 1060000 <> 0)
  /\ fst (ensureValidToken Scenarios.remote_down 1000000 s) = Return tt
  /\ this_auth (snd (ensureValidToken Scenarios.remote_down 1000000 s))
     = Some (Scenarios.sample_client (Some 1060000)).
Proof.
  intros s.
  assert (Hsoon : 1000000 < 1060000 < 1000000 + 5 * 60 * 1000) by lia.
  assert (H0 : 1060000 <> 0) by lia.
  destruct (@ensureValidToken_expiring_refresh_best_effort
              Scenarios.remote_down 1000000 s
              (Scenarios.sample_client (Some 1060000))
              (Scenarios.sample_credentials (Some 1060000))
              1060000 eq_refl eq_refl eq_refl Hsoon H0) as (_ & Hret & Hfail).
  destruct (Hfail (Error "invalid_grant") eq_refl) as (Hkeep & _ & _).
  split; [split; assumption|]. split; assumption.
Defined.

(** Outside that domain: [!expiry] takes the expiry 0 for an absent one, so
    with a clock before the epoch the expiry 0, although still ahead, falls
    in the mandatory branch. *)
Example expired_takes_zero_for_absent :
  expired (Some 0) (-1) = true /\ expired (Some 1) (-1) = false.
Proof. split; reflexivity. Qed.

Lemma refresh_due (expiry : option Z) (now : Z) :
  match expiry with
  | None => True
  | Some e => e = 0 \/ e < now + 5 * 60 * 1000
  end ->
  expired expiry now = true
  \/ (expired expiry now = false /\ expiring expiry now = true).
Proof.
  destruct expiry as [e|]; [|now left].
  intros H. destruct (expired (Some e) now) eqn:E; [now left|right].
  split; [reflexivity|].
  unfold expired in E. apply orb_false_iff in E. destruct E as [E0 E1].
  apply Z.eqb_neq in E0. apply Z.leb_gt in E1.
  unfold expiring. apply Z.ltb_lt. lia.
Qed.

(** A renewal that is due, seen from the renewal itself: when refresh and
    save return, [ensureValidToken] logs one more line and returns; when
    one of them throws, it throws in the mandatory branch and returns in
    the preventive one, and leaves client and token file as the renewal
    left them. *)
Lemma ensureValidToken_due
      (R : Remote) (now : Z) (s : State) (auth : OAuth2Client) (c : Credentials) :
  this_auth s = Some auth ->
  credentials auth = Some c ->
  match expiry_date c with
  | None => True
  | Some e => e = 0 \/ e < now + 5 * 60 * 1000
  end ->
  exists line,
  forall s2,
    (refresh_and_save R auth (log (EvConsoleError line) s) = (Return tt, s2) ->
     exists done,
       ensureValidToken R now s = (Return tt, log (EvConsoleError done) s2))
    /\ (forall e,
          refresh_and_save R auth (log (EvConsoleError line) s) = (Throw e, s2) ->
          fst (ensureValidToken R now s)
          = (if expired (expiry_date c) now
             then Throw (Error "Token inválido, se requiere re-autenticación")
             else Return tt)
          /\ this_auth (snd (ensureValidToken R now s)) = this_auth s2
          /\ file_TOKEN (snd (ensureValidToken R now s)) = file_TOKEN s2).
Proof.
  intros Hauth Hc Hdue.
  destruct (refresh_due _ now Hdue) as [Hexp | [Hexp Hing]].
  - rewrite (@ensureValidToken_expired_branch R now s auth c Hauth Hc Hexp).
    exists "🔄 Token expirado, renovando...". intros s2. split.
    + intros H. eexists. run_renewal H. reflexivity.
    + intros e H. run_renewal H. rewrite Hexp. repeat split.
  - rewrite (@ensureValidToken_expiring_branch R now s auth c Hauth Hc Hexp Hing).
    exists "🔄 Token por expirar, renovando preventivamente...". intros s2. split.
    + intros H. eexists. run_renewal H. reflexivity.
    + intros e H. run_renewal H. rewrite Hexp. repeat split.
Qed.

(** A granted refresh is in [this.auth] whatever becomes of the save. *)
Lemma ensureValidToken_renewal_in_memory
      (R : Remote) (now : Z) (s : State) (auth : OAuth2Client) (c fresh : Credentials) :
  this_auth s = Some auth ->
  credentials auth = Some c ->
  match expiry_date c with
  | None => True
  | Some e => e = 0 \/ e < now + 5 * 60 * 1000
  end ->
  refreshAccessToken R auth = Return fresh ->
  this_auth (snd (ensureValidToken R now s)) = Some (setCredentials auth fresh).
Proof.
  intros Hauth Hc Hdue Href.
  destruct (@ensureValidToken_due R now s auth c Hauth Hc Hdue) as [line Hrun].
  pose proof (@refresh_and_save_granted R auth (log (EvConsoleError line) s) fresh Href)
    as Hsave.
  fold (renewed auth fresh (log (EvConsoleError line) s)) in Hsave.
  destruct (saveCredentials_cases (setCredentials auth fresh)
                                  (renewed auth fresh (log (EvConsoleError line) s)))
    as [(key & c' & _ & _ & _ & H) | [(e & _ & H) | (e & _ & H)]];
    rewrite H in Hsave.
  - destruct (proj1 (Hrun _) Hsave) as [done Hens]. now rewrite Hens.
  - destruct (proj2 (Hrun _) e Hsave) as (_ & Hmem & _). now rewrite Hmem.
  - destruct (proj2 (Hrun _) e Hsave) as (_ & Hmem & _). now rewrite Hmem.
Qed.

(** C8, as the code has it.  When a refresh is due (no expiry, or an
    expiry less than five minutes ahead) and the authorization server
    grants it, the credentials the refresh call returned replace those of
    the client in memory.  They reach the token file when the save
    completes, that is when the key file holds a client key and the file
    system accepts the write: [ensureValidToken] then returns and the
    token file holds the returned credentials as they are, the persisted
    expiry being the returned one, compared with nothing (so it is later
    than the previous expiry exactly when the authorization server
    returned a later one).  When the save fails, the token file is left
    empty (the data refused after the truncation) or as it was (no key, or
    the open refused), and [ensureValidToken] throws in the mandatory
    branch and returns in the preventive one. *)
Theorem ensureValidToken_persists_returned_expiry
        (R : Remote) (now : Z) (s : State) (auth : OAuth2Client)
        (c fresh : Credentials) :
  this_auth s = Some auth ->
  credentials auth = Some c ->
  match expiry_date c with
  | None => True
  | Some e => e = 0 \/ e < now + 5 * 60 * 1000
  end ->
  refreshAccessToken R auth = Return fresh ->
  let s' := snd (ensureValidToken R now s) in
  let unsaved_outcome :=
    if expired (expiry_date c) now
    then Throw (Error "Token inválido, se requiere re-autenticación")
    else Return tt in
  this_auth s' = Some (setCredentials auth fresh)
  /\ match key_on_file s, writeFile_TOKEN s with
     | Some key, Written =>
         fst (ensureValidToken R now s) = Return tt
         /\ file_TOKEN s' = Some (JsonText (JObject (payload_of key fresh)))
         /\ tok_expiry_date (payload_of key fresh) = expiry_date fresh
     | Some _, WriteRejected _ =>
         fst (ensureValidToken R now s) = unsaved_outcome
         /\ file_TOKEN s' = Some EmptyText
     | _, _ =>
         fst (ensureValidToken R now s) = unsaved_outcome
         /\ file_TOKEN s' = file_TOKEN s
     end.
Proof.
  intros Hauth Hc Hdue Href s' unsaved_outcome. subst s' unsaved_outcome.
  split; [now apply (@ensureValidToken_renewal_in_memory R now s auth c fresh)|].
  destruct (@ensureValidToken_due R now s auth c Hauth Hc Hdue) as [line Hrun].
  pose proof (@refresh_and_save_granted R auth (log (EvConsoleError line) s) fresh Href)
    as Hsave.
  fold (renewed auth fresh (log (EvConsoleError line) s)) in Hsave.
  set (s1 := renewed auth fresh (log (EvConsoleError line) s)) in *.
  destruct (key_on_file s) as [key|] eqn:Hkey.
  - assert (Hkey1 : key_on_file s1 = Some key) by exact Hkey.
    rewrite (@saveCredentials_with_key (setCredentials auth fresh) s1 key fresh
                                       Hkey1 eq_refl) in Hsave.
    change (writeFile_TOKEN s1) with (writeFile_TOKEN s) in Hsave.
    destruct (writeFile_TOKEN s) as [|e|e].
    + destruct (proj1 (Hrun _) Hsave) as [done Hens]. rewrite Hens.
      repeat split.
    + destruct (proj2 (Hrun _) e Hsave) as (Hout & _ & Hfile).
      rewrite Hfile. split; [exact Hout | reflexivity].
    + destruct (proj2 (Hrun _) e Hsave) as (Hout & _ & Hfile).
      rewrite Hfile. split; [exact Hout | reflexivity].
  - assert (Hkey1 : key_on_file s1 = None) by exact Hkey.
    destruct (@saveCredentials_failed (setCredentials auth fresh) s1 (or_introl Hkey1))
      as [e He].
    rewrite He in Hsave.
    destruct (proj2 (Hrun _) e Hsave) as (Hout & _ & Hfile).
    rewrite Hfile. split; [exact Hout | reflexivity].
Qed.

Lemma ensureValidToken_persists_returned_expiry_witness :
  let auth := Scenarios.sample_client (Some 1000) in
  let fresh := Scenarios.sample_credentials (Some 3602000) in
  let s := Scenarios.sample_state (Some (Scenarios.sample_token (Some 1000))) (Some auth) in
  let R := Scenarios.remote_up fresh auth in
  (1000 = 0 \/ 1000 < 2000 + 5 * 60 * 1000)
  /\ fst (ensureValidToken R 2000 s) = Return tt
  /\ file_TOKEN (snd (ensureValidToken R 2000 s))
     = Some (Scenarios.sample_token (Some 3602000)).
Proof.
  intros auth fresh s R.
  assert (Hdue : 1000 = 0 \/ 1000 < 2000 + 5 * 60 * 1000) by (right; lia).
  destruct (@ensureValidToken_persists_returned_expiry
              R 2000 s auth (Scenarios.sample_credentials (Some 1000)) fresh
              eq_refl eq_refl Hdue eq_refl)
    as (_ & Hret & Hfile & _).
  split; [exact Hdue|]. split; [exact Hret | exact Hfile].
Defined.

(** C8 as stated fails: the credential manager stores what the refresh
    call returns.  At time 1000000 the token expires in four minutes (at
    1240000); the preventive refresh succeeds and the authorization server
    answers with a token that lives one minute (expiry 1060000): the
    client and the token file now hold the earlier expiry. *)
Lemma ensureValidToken_can_lower_expiry :
  let auth := Scenarios.sample_client (Some 1240000) in
  let fresh := Scenarios.sample_credentials (Some 1060000) in
  let s := Scenarios.sample_state (Some (Scenarios.sample_token (Some 1240000)))
                                  (Some auth) in
  let R := Scenarios.remote_up fresh auth in
  let s' := snd (ensureValidToken R 1000000 s) in
  fst (ensureValidToken R 1000000 s) = Return tt
  /\ In EvRefreshAccessToken (trace s')
  /\ file_TOKEN s = Some (Scenarios.sample_token (Some 1240000))
  /\ file_TOKEN s' = Some (Scenarios.sample_token (Some 1060000))
  /\ this_auth s' = Some (Scenarios.sample_client (Some 1060000))
  /\ ~ (1240000 < 1060000).
Proof.
  intros auth fresh s R s'. subst s'.
  split; [vm_compute; reflexivity|].
  split; [vm_compute; tauto|].
  split; [reflexivity|].
  split; [vm_compute; reflexivity|].
  split; [vm_compute; reflexivity|].
  lia.
Qed.

(** ** [saveCredentials] and the token file *)

(** C9, as the code has it.  Every call of [saveCredentials] that returns
    found a client key in the key file and credentials on the client, met
    a file system that accepted the write, and left in the token file the
    document made of the client identifier and secret of that key and of
    all four credential fields (refresh token, access token, token type,
    expiry).  The document is written in place by one [fs.writeFile] on
    the token file, which truncates the file and then writes the data,
    with no temporary file and no rename: the same call killed between
    the two leaves the token file empty, and so does the same call when
    the file system refuses the data, which makes it throw. *)
Theorem saveCredentials_writes_all_fields_in_place
        (client : OAuth2Client) (s s' : State) :
  saveCredentials client s = (Return tt, s') ->
  (exists key c,
      key_on_file s = Some key
      /\ credentials client = Some c
      /\ file_TOKEN s'
         = Some (JsonText (JObject
                   (mkTokenJson (Some "authorized_user")
                                (client_id key) (client_secret key)
                                (refresh_token c) (access_token c)
                                (token_type c) (expiry_date c)))))
  /\ writeFile_TOKEN s = Written
  /\ trace s'
     = EvConsoleError "✅ Credenciales guardadas exitosamente"
       :: EvWriteData TOKEN_PATH
       :: EvOpenTruncate TOKEN_PATH
       :: EvReadFile CREDENTIALS_PATH
       :: EvSaveCredentials
       :: trace s
  /\ file_TOKEN (snd (saveCredentials_killed_in_write client s)) = Some EmptyText
  /\ forall e,
      let refused := saveCredentials client (with_writeFile (WriteRejected e) s) in
      fst refused = Throw e /\ file_TOKEN (snd refused) = Some EmptyText.
Proof.
  intros Hrun.
  destruct (saveCredentials_cases client s)
    as [(key & c & Hkey & Hc & Hw & Hsave)
       | [(e & _ & Hsave) | (e & _ & Hsave)]];
    rewrite Hsave in Hrun; try discriminate.
  injection Hrun as <-.
  split; [exists key, c; repeat split; assumption|].
  split; [exact Hw|]. split; [reflexivity|].
  split.
  - now rewrite (@saveCredentials_killed_done client s key c Hkey Hc Hw).
  - intros e refused. subst refused.
    rewrite (@saveCredentials_with_key client (with_writeFile (WriteRejected e) s)
                                       key c Hkey Hc).
    split; reflexivity.
Qed.

Lemma saveCredentials_writes_all_fields_in_place_witness :
  let client := Scenarios.sample_client (Some 5000) in
  let s := Scenarios.sample_state None None in
  saveCredentials client s = (Return tt, snd (saveCredentials client s))
  /\ trace (snd (saveCredentials client s))
     = [ EvConsoleError "✅ Credenciales guardadas exitosamente";
         EvWriteData TOKEN_PATH;
         EvOpenTruncate TOKEN_PATH;
         EvReadFile CREDENTIALS_PATH;
         EvSaveCredentials ].
Proof.
  intros client s.
  assert (Hrun : saveCredentials client s = (Return tt, snd (saveCredentials client s)))
    by reflexivity.
  split; [exact Hrun|].
  exact (proj1 (proj2 (proj2 (@saveCredentials_writes_all_fields_in_place
                                client s _ Hrun)))).
Defined.

(** C9 as stated fails: the save is not atomic.  The token file holds a
    valid token; a save of renewed credentials that is killed inside
    [fs.writeFile] leaves it empty, which is neither the old document nor
    the new one, and which [loadSavedCredentialsIfExist] can no longer
    read. *)
Lemma saveCredentials_crash_truncates_token_file :
  let client := Scenarios.sample_client (Some 5000) in
  let s := Scenarios.sample_state (Some (Scenarios.sample_token (Some 1000))) None in
  let crashed := snd (saveCredentials_killed_in_write client s) in
  file_TOKEN s = Some (Scenarios.sample_token (Some 1000))
  /\ file_TOKEN (snd (saveCredentials client s))
     = Some (Scenarios.sample_token (Some 5000))
  /\ file_TOKEN crashed = Some EmptyText
  /\ file_TOKEN crashed <> file_TOKEN s
  /\ file_TOKEN crashed <> file_TOKEN (snd (saveCredentials client s))
  /\ fst (loadSavedCredentialsIfExist s) = Return (Some (Scenarios.sample_client (Some 1000)))
  /\ fst (loadSavedCredentialsIfExist crashed) = Return None.
Proof.
  intros client s crashed. subst crashed.
  split; [reflexivity|].
  split; [vm_compute; reflexivity|].
  split; [vm_compute; reflexivity|].
  split; [vm_compute; discriminate|].
  split; [vm_compute; discriminate|].
  split; vm_compute; reflexivity.
Qed.

(** A write the file system refuses after the truncation: the save throws
    the error of the file system, and the token file, which held a valid
    token, is left empty. *)
Example saveCredentials_refused_write_truncates_token_file :
  let client := Scenarios.sample_client (Some 5000) in
  let s := with_writeFile (WriteRejected Scenarios.EFBIG)
             (Scenarios.sample_state (Some (Scenarios.sample_token (Some 1000))) None) in
  fst (saveCredentials client s) = Throw Scenarios.EFBIG
  /\ file_TOKEN (snd (saveCredentials client s)) = Some EmptyText
  /\ fst (loadSavedCredentialsIfExist (snd (saveCredentials client s))) = Return None.
Proof. repeat split. Qed.

(** A mandatory refresh that is granted and whose write is refused: the
    tool call fails with the re-authentication message, the client holds
    the renewed credentials and the token file is left empty. *)
Example ensureValidToken_refused_write :
  let auth := Scenarios.sample_client (Some 1000) in
  let fresh := Scenarios.sample_credentials (Some 3602000) in
  let s := with_writeFile (WriteRejected Scenarios.EFBIG)
             (Scenarios.sample_state (Some (Scenarios.sample_token (Some 1000)))
                                     (Some auth)) in
  let R := Scenarios.remote_up fresh auth in
  fst (ensureValidToken R 2000 s)
  = Throw (Error "Token inválido, se requiere re-autenticación")
  /\ this_auth (snd (ensureValidToken R 2000 s))
     = Some (Scenarios.sample_client (Some 3602000))
  /\ file_TOKEN (snd (ensureValidToken R 2000 s)) = Some EmptyText.
Proof. repeat split. Qed.

(** The earlier server keeps the refresh token only: access token, token
    type and expiry are not in the document it writes. *)
Lemma Legacy_saveCredentials_keeps_refresh_token_only
      (client : OAuth2Client) (s : State) (key : Key) (c : Credentials) :
  key_on_file s = Some key ->
  credentials client = Some c ->
  writeFile_TOKEN s = Written ->
  fst (Legacy.saveCredentials client s) = Return tt
  /\ file_TOKEN (snd (Legacy.saveCredentials client s))
     = Some (JsonText (JObject
               (mkTokenJson (Some "authorized_user")
                            (client_id key) (client_secret key)
                            (refresh_token c) None None None))).
Proof.
  unfold key_on_file. intros Hkey Hc Hw.
  unfold Legacy.saveCredentials. rewrite bind_emit.
  unfold bind, lift. rewrite readFile_CREDENTIALS_PATH_run.
  cbn [file_CREDENTIALS log].
  destruct (file_CREDENTIALS s) as [[| |[|keys]]|]; try discriminate.
  cbn [JSON_parse prop prop_opt]. rewrite Hkey, Hc. cbn [prop_opt].
  rewrite writeFile_TOKEN_PATH_run. cbn [writeFile_TOKEN log]. rewrite Hw.
  split; reflexivity.
Qed.

(** ** [loadSavedCredentialsIfExist] *)

Lemma only_read_refl (s : State) : only_read s s.
Proof.
  unfold only_read. repeat split. exists []. split; [reflexivity|constructor].
Qed.

Lemma only_read_log (ev : Event) (s s' : State) :
  quiet_event ev -> only_read s s' -> only_read s (log ev s').
Proof.
  unfold only_read. intros Hev (H1 & H2 & H3 & H4 & Hw & H5 & evs & H6 & H7).
  cbn [log env_GOOGLE_TOKEN env_GOOGLE_CREDENTIALS file_TOKEN file_CREDENTIALS
       writeFile_TOKEN this_auth trace].
  repeat split; try assumption.
  exists (ev :: evs). split; [now rewrite H6 | now constructor].
Qed.

Create HintDb load.
#[local] Hint Resolve only_read_refl only_read_log : load.
#[local] Hint Extern 1 (quiet_event _) => exact I : load.

(** [client_of] does not touch the state; it returns the described client
    or throws when there is none. *)
Lemma client_of_run (keys : json KeysJson) (saved : json TokenJson) (s : State) :
  match client_described keys saved with
  | Some client => client_of keys saved s = (Return client, s)
  | None => exists e, client_of keys saved s = (Throw e, s)
  end.
Proof.
  unfold client_of, client_described, bind, lift, ret.
  destruct keys as [|[inst alt]]; cbn; [destruct saved; eexists; reflexivity|].
  destruct inst as [[id secret [uris|]]|]; cbn;
    [ | destruct saved; eexists; reflexivity | ].
  - destruct saved; cbn; [eexists|]; reflexivity.
  - destruct alt as [[id secret [uris|]]|]; cbn;
      destruct saved; cbn; try (eexists; reflexivity); reflexivity.
Qed.

Lemma bind_assoc {A B C} (m : M A) (f : A -> M B) (g : B -> M C) (s : State) :
  bind (bind m f) g s = bind m (fun x => bind (f x) g) s.
Proof. unfold bind. destruct (m s) as [[a|e] s']; reflexivity. Qed.

Lemma finds_Throw (s0 s : State) (e : JsError) :
  only_read s0 s -> finds None s0 (Throw e, s).
Proof. intros H. split; [exact H|]. now exists e. Qed.

#[local] Hint Resolve finds_Throw : load.

(** The end of both branches: parse the keys, build the client, log. *)
Lemma load_tail (k : text KeysJson) (saved : json TokenJson) (line : string)
      (s0 s : State) :
  only_read s0 s ->
  finds match parsed (Some k) with
        | Some keys => client_described keys saved
        | None => None
        end
        s0
        ((keys <- lift (JSON_parse k) ;;
          client <- client_of keys saved ;;
          console_error line ;;
          ret (Some client)) s).
Proof.
  intros Hs. destruct k as [| |keys]; cbn [parsed].
  - erewrite bind_Throw by reflexivity. auto with load.
  - erewrite bind_Throw by reflexivity. auto with load.
  - pose proof (client_of_run keys saved s) as H.
    erewrite bind_Return by reflexivity.
    destruct (client_described keys saved) as [client|].
    + erewrite bind_Return by exact H.
      split; [cbn; auto with load | reflexivity].
    + destruct H as [e H]. erewrite bind_Throw by exact H. auto with load.
Qed.

(** The [try] block returns the described client or, when there is none,
    throws; either way it only read. *)
Lemma read_saved_credentials_run (s : State) :
  finds (described_client s) s (read_saved_credentials s).
Proof.
  unfold read_saved_credentials, described_client, token_source, keys_source.
  rewrite (@bind_Return _ _ getenv_GOOGLE_TOKEN _ s s (env_GOOGLE_TOKEN s))
    by reflexivity.
  destruct (env_truthy (env_GOOGLE_TOKEN s)) as [content|].
  - (* the environment override *)
    destruct content as [| |saved]; cbn [parsed].
    + erewrite bind_Throw by reflexivity. auto with load.
    + erewrite bind_Throw by reflexivity. auto with load.
    + erewrite bind_Return by reflexivity.
      rewrite (@bind_Return _ _ getenv_GOOGLE_CREDENTIALS _ s s
                            (env_GOOGLE_CREDENTIALS s)) by reflexivity.
      destruct (env_truthy (env_GOOGLE_CREDENTIALS s)) as [k|].
      * apply load_tail. auto with load.
      * rewrite bind_assoc.
        unfold bind at 1. rewrite readFile_CREDENTIALS_PATH_run.
        destruct (file_CREDENTIALS s) as [buf|].
        -- apply load_tail. auto with load.
        -- cbn [parsed]. auto with load.
  - (* the token file *)
    unfold bind at 1. rewrite readFile_TOKEN_PATH_run.
    destruct (file_TOKEN s) as [content|]; [|cbn [parsed]; auto with load].
    destruct content as [| |saved]; cbn [parsed].
    + erewrite bind_Throw by reflexivity. auto with load.
    + erewrite bind_Throw by reflexivity. auto with load.
    + erewrite bind_Return by reflexivity.
      unfold bind at 1. rewrite readFile_CREDENTIALS_PATH_run.
      cbn [file_CREDENTIALS log].
      destruct (file_CREDENTIALS s) as [buf|].
      * apply load_tail. auto with load.
      * cbn [parsed]. auto with load.
Qed.

(** What [loadSavedCredentialsIfExist] does in every state: it returns,
    with the client its sources describe or with [null], and it only read
    files and wrote to the console. *)
Lemma loadSavedCredentialsIfExist_run (s : State) :
  exists s',
    loadSavedCredentialsIfExist s = (Return (described_client s), s')
    /\ only_read s s'.
Proof.
  unfold loadSavedCredentialsIfExist, try_catch.
  destruct (read_saved_credentials_run s) as [Hread H].
  destruct (read_saved_credentials s) as [o s1]. cbn [fst snd] in *.
  destruct (described_client s) as [client|].
  - subst o. exists s1. split; [reflexivity|assumption].
  - destruct H as [e ->]. eexists. split; [reflexivity|]. auto with load.
Qed.

Lemma parsed_malformed {A} (source : option (text A)) :
  malformed source -> parsed source = None.
Proof.
  intros (t & e & -> & H). destruct t; [reflexivity|reflexivity|discriminate].
Qed.

Lemma described_client_needs_token (s : State) :
  parsed (token_source s) = None -> described_client s = None.
Proof. unfold described_client. now intros ->. Qed.

Lemma described_client_needs_keys (s : State) :
  parsed (keys_source s) = None -> described_client s = None.
Proof.
  unfold described_client. intros ->. now destruct (parsed (token_source s)).
Qed.

(** C3, as the code has it.  [loadSavedCredentialsIfExist] never throws:
    in every state it returns, with the client its token and key sources
    describe or with [null], having only read files and written to the
    console.  It returns [null] when there is no token source, and it
    returns [null] as well (no error of any kind) when the token source or
    the key source exists and is not valid JSON. *)
Theorem loadSavedCredentialsIfExist_never_throws (s : State) :
  fst (loadSavedCredentialsIfExist s) = Return (described_client s)
  /\ only_read s (snd (loadSavedCredentialsIfExist s))
  /\ (token_source s = None -> fst (loadSavedCredentialsIfExist s) = Return None)
  /\ (malformed (token_source s) ->
      fst (loadSavedCredentialsIfExist s) = Return None)
  /\ (malformed (keys_source s) ->
      fst (loadSavedCredentialsIfExist s) = Return None).
Proof.
  destruct (loadSavedCredentialsIfExist_run s) as (s' & Hrun & Hread).
  rewrite Hrun. cbn [fst snd].
  split; [reflexivity|]. split; [assumption|].
  split; [|split]; intros H; f_equal.
  - apply described_client_needs_token. now rewrite H.
  - apply described_client_needs_token. now apply parsed_malformed.
  - apply described_client_needs_keys. now apply parsed_malformed.
Qed.

(** C3 as stated fails in its second half: a token file that exists and is
    not JSON makes [loadSavedCredentialsIfExist] return [null]; nothing is
    thrown. *)
Lemma loadSavedCredentialsIfExist_malformed_token_returns_null :
  let s := Scenarios.sample_state (Some NotJson) None in
  malformed (token_source s)
  /\ fst (loadSavedCredentialsIfExist s) = Return None
  /\ forall e, fst (loadSavedCredentialsIfExist s) <> Throw e.
Proof.
  intros s. split; [|split].
  - exists NotJson. eexists. split; reflexivity.
  - reflexivity.
  - intros e. vm_compute. discriminate.
Qed.

(** The earlier server: its [loadSavedCredentialsIfExist] never throws
    either. *)
Lemma Legacy_loadSavedCredentialsIfExist_never_throws
      (JWT : json TokenJson -> Outcome OAuth2Client) (s : State) :
  exists r, fst (Legacy.loadSavedCredentialsIfExist JWT s) = Return r.
Proof.
  unfold Legacy.loadSavedCredentialsIfExist, try_catch.
  unfold bind at 1. rewrite readFile_TOKEN_PATH_run.
  destruct (file_TOKEN s) as [[| |saved]|]; try (eexists; reflexivity).
  unfold bind, lift, ret. cbn [JSON_parse].
  destruct (JWT saved); eexists; reflexivity.
Qed.

(** ** [authorize] *)

Lemma quiet_events_hold_no_save (evs : list Event) :
  Forall quiet_event evs ->
  ~ In EvSaveCredentials evs /\ ~ In EvAuthenticate evs.
Proof.
  intros H. rewrite Forall_forall in H.
  split; intros Hin; apply H in Hin; exact Hin.
Qed.

Lemma key_on_file_only_read (s s' : State) :
  only_read s s' -> key_on_file s' = key_on_file s.
Proof.
  intros (_ & _ & _ & H & _). unfold key_on_file. now rewrite H.
Qed.

(** A grant from scratch that returns has obtained the client from the
    interactive grant and, when the client carries credentials, has saved
    them. *)
Lemma authenticate_from_scratch_run (R : Remote) (s s' : State)
      (client : OAuth2Client) :
  authenticate_from_scratch R s = (Return client, s') ->
  authenticate R = Return client
  /\ match credentials client with
     | Some c =>
         exists key,
           key_on_file s = Some key
           /\ s' = saved (payload_of key c) (log EvAuthenticate s)
     | None => s' = log EvAuthenticate s
     end.
Proof.
  unfold authenticate_from_scratch. rewrite bind_emit.
  unfold bind at 1. unfold lift.
  destruct (authenticate R) as [granted|e]; [|discriminate].
  destruct (credentials granted) as [c|] eqn:Hc.
  - destruct (saveCredentials_cases granted (log EvAuthenticate s))
      as [(key & c' & Hkey & Hc' & _ & Hsave)
         | [(e & _ & Hsave) | (e & _ & Hsave)]].
    + erewrite bind_Return by exact Hsave.
      unfold ret. intros H. injection H as <- <-.
      split; [reflexivity|]. rewrite Hc.
      rewrite Hc in Hc'. injection Hc' as <-.
      exists key. split; [exact Hkey | reflexivity].
    + erewrite bind_Throw by exact Hsave. discriminate.
    + erewrite bind_Throw by exact Hsave. discriminate.
  - unfold bind, ret. intros H. injection H as <- <-.
    split; [reflexivity|]. now rewrite Hc.
Qed.

(** The grant from scratch, reached from [s] through a run that saved
    nothing. *)
Lemma authorize_by_grant (R : Remote) (s s2 s' : State) (client : OAuth2Client)
      (evs2 : list Event) :
  trace s2 = (evs2 ++ trace s)%list ->
  ~ In EvSaveCredentials evs2 ->
  file_TOKEN s2 = file_TOKEN s ->
  key_on_file s2 = key_on_file s ->
  authenticate_from_scratch R s2 = (Return client, s') ->
  exists evs,
    trace s' = (evs ++ trace s)%list
    /\ authenticate R = Return client
    /\ In EvAuthenticate evs
    /\ match credentials client with
       | Some c =>
           In EvSaveCredentials evs
           /\ exists key,
               key_on_file s = Some key
               /\ file_TOKEN s'
                  = Some (JsonText (JObject (payload_of key c)))
       | None => ~ In EvSaveCredentials evs /\ file_TOKEN s' = file_TOKEN s
       end.
Proof.
  intros Htrace Hnosave Hfile Hkeys Hrun.
  apply authenticate_from_scratch_run in Hrun. destruct Hrun as [Hauth Hs'].
  destruct (credentials client) as [c|].
  - destruct Hs' as (key & Hkey & ->).
    exists (EvConsoleError "✅ Credenciales guardadas exitosamente"
            :: EvWriteData TOKEN_PATH :: EvOpenTruncate TOKEN_PATH
            :: EvReadFile CREDENTIALS_PATH :: EvSaveCredentials
            :: EvAuthenticate :: evs2).
    cbn [saved trace log with_token file_TOKEN]. rewrite Htrace.
    split; [reflexivity|]. split; [assumption|].
    split; [cbn; tauto|]. split; [cbn; tauto|].
    exists key. split; [now rewrite <- Hkeys | reflexivity].
  - subst s'. exists (EvAuthenticate :: evs2).
    cbn [trace log file_TOKEN]. rewrite Htrace.
    split; [reflexivity|]. split; [assumption|].
    split; [cbn; tauto|]. split; [|assumption].
    cbn. intros [H|H]; [discriminate|contradiction].
Qed.

(** C4, as the code has it.  A run of [authorize] that returns a client
    went one of two ways.  Either the saved credentials were loaded and
    passed the probe: then the client is the probed one, and
    [saveCredentials] was not called and the token file is as it was.  Or
    the client came from the interactive grant: then [saveCredentials] was
    called, and the token file holds the client's credentials, exactly
    when the client carries credentials. *)
Theorem authorize_saves_only_after_grant
        (R : Remote) (s s' : State) (client : OAuth2Client) :
  authorize R s = (Return client, s') ->
  exists evs,
    trace s' = (evs ++ trace s)%list
    /\ ((exists loaded,
            described_client s = Some loaded
            /\ getAccessToken R loaded = Return client
            /\ ~ In EvAuthenticate evs
            /\ ~ In EvSaveCredentials evs
            /\ file_TOKEN s' = file_TOKEN s)
        \/ (authenticate R = Return client
            /\ In EvAuthenticate evs
            /\ match credentials client with
               | Some c =>
                   In EvSaveCredentials evs
                   /\ exists key,
                       key_on_file s = Some key
                       /\ file_TOKEN s'
                          = Some (JsonText (JObject (payload_of key c)))
               | None =>
                   ~ In EvSaveCredentials evs /\ file_TOKEN s' = file_TOKEN s
               end)).
Proof.
  unfold authorize.
  destruct (loadSavedCredentialsIfExist_run s) as (s1 & Hload & Hread).
  erewrite bind_Return by exact Hload.
  pose proof (key_on_file_only_read Hread) as Hkeys.
  destruct Hread as (_ & _ & Hfile & _ & _ & _ & evs1 & Htrace & Hquiet).
  apply quiet_events_hold_no_save in Hquiet. destruct Hquiet as [Hnosave Hnogrant].
  destruct (described_client s) as [loaded|].
  - unfold try_catch. rewrite bind_emit. unfold lift.
    destruct (getAccessToken R loaded) as [probed|e] eqn:Hprobe.
    + intros H. injection H as <- <-.
      exists (EvGetAccessToken :: evs1).
      cbn [trace log file_TOKEN]. rewrite Htrace. split; [reflexivity|].
      left. exists loaded.
      split; [reflexivity|]. split; [exact Hprobe|].
      split; [|split; [|assumption]].
      * cbn. intros [H|H]; [discriminate|contradiction].
      * cbn. intros [H|H]; [discriminate|contradiction].
    + rewrite bind_console_error. intros H.
      assert (Hgrant :
        exists evs,
          trace s' = (evs ++ trace s)%list
          /\ authenticate R = Return client
          /\ In EvAuthenticate evs
          /\ match credentials client with
             | Some c =>
                 In EvSaveCredentials evs
                 /\ exists key,
                     key_on_file s = Some key
                     /\ file_TOKEN s'
                        = Some (JsonText (JObject (payload_of key c)))
             | None => ~ In EvSaveCredentials evs /\ file_TOKEN s' = file_TOKEN s
             end).
      { eapply authorize_by_grant; [| | | |exact H].
        - cbn [trace log]. rewrite Htrace. rewrite !app_comm_cons. reflexivity.
        - cbn. intros [H'|[H'|H']]; [discriminate|discriminate|contradiction].
        - exact Hfile.
        - exact Hkeys. }
      destruct Hgrant as (evs & Hevs & Hrest).
      exists evs. split; [assumption|]. right. exact Hrest.
  - intros H.
    destruct (@authorize_by_grant R s s1 s' client evs1 Htrace Hnosave Hfile Hkeys H)
      as (evs & Hevs & Hrest).
    exists evs. split; [assumption|]. right. exact Hrest.
Qed.

Lemma authorize_saves_only_after_grant_witness :
  let granted := Scenarios.sample_client (Some 9000) in
  let R := Scenarios.remote_up (Scenarios.sample_credentials (Some 9000)) granted in
  let s := Scenarios.sample_state None None in
  authorize R s = (Return granted, snd (authorize R s))
  /\ file_TOKEN (snd (authorize R s)) = Some (Scenarios.sample_token (Some 9000)).
Proof.
  intros granted R s.
  assert (Hrun : authorize R s = (Return granted, snd (authorize R s)))
    by (vm_compute; reflexivity).
  split; [exact Hrun|].
  destruct (@authorize_saves_only_after_grant R s _ granted Hrun)
    as (evs & _ & [(loaded & Hd & _) | (_ & _ & Hc)]).
  - discriminate Hd.
  - change (credentials granted)
      with (Some (Scenarios.sample_credentials (Some 9000))) in Hc.
    destruct Hc as (_ & key & Hkey & Hfile).
    assert (Hk : key = Scenarios.sample_key)
      by (change (key_on_file s) with (Some Scenarios.sample_key) in Hkey;
          now injection Hkey).
    rewrite Hfile, Hk. reflexivity.
Defined.

(** C4 as stated fails on the first path: with a token file that loads and
    a probe that succeeds, [authorize] returns the loaded client and
    [saveCredentials] is never called (the run starts with an empty
    trace). *)
Lemma authorize_loaded_client_is_not_saved :
  let loaded := Scenarios.sample_client (Some 9000) in
  let R := Scenarios.remote_up (Scenarios.sample_credentials (Some 9000)) loaded in
  let s := Scenarios.sample_state (Some (Scenarios.sample_token (Some 9000))) None in
  trace s = []
  /\ fst (authorize R s) = Return loaded
  /\ trace (snd (authorize R s))
     = [ EvGetAccessToken;
         EvConsoleError "✅ Token cargado desde archivo";
         EvReadFile CREDENTIALS_PATH;
         EvReadFile TOKEN_PATH ]
  /\ ~ In EvSaveCredentials (trace (snd (authorize R s))).
Proof.
  intros loaded R s.
  split; [reflexivity|].
  split; [vm_compute; reflexivity|].
  split; [vm_compute; reflexivity|].
  vm_compute. intros [H|[H|[H|[H|H]]]]; try discriminate. exact H.
Qed.

(** The earlier server: a loaded client is returned at once, nothing is
    saved. *)
Lemma Legacy_authorize_loaded_client_is_not_saved
      (R : Remote) (JWT : json TokenJson -> Outcome OAuth2Client)
      (s : State) (saved : json TokenJson) (client : OAuth2Client) :
  file_TOKEN s = Some (JsonText saved) ->
  JWT saved = Return client ->
  Legacy.authorize R JWT s = (Return client, log (EvReadFile TOKEN_PATH) s).
Proof.
  intros Hfile Hjwt.
  assert (Hload : Legacy.loadSavedCredentialsIfExist JWT s
                  = (Return (Some client), log (EvReadFile TOKEN_PATH) s)).
  { unfold Legacy.loadSavedCredentialsIfExist, try_catch.
    unfold bind at 1. rewrite readFile_TOKEN_PATH_run, Hfile.
    unfold bind, lift, ret. cbn [JSON_parse]. now rewrite Hjwt. }
  unfold Legacy.authorize. erewrite bind_Return by exact Hload. reflexivity.
Qed.

End CredentialTheory.

(** * More on the free-slot finder *)

Module FreeSlotMore.

Import FreeSlotFinder.

#[local] Arguments gap : simpl never.
#[local] Arguments advance : simpl never.




(** The cursor never moves back, whatever the events. *)
Lemma scan_after_cursor (duration : Z) (endDate : Date) (events : list CalendarEvent) :
  forall c f, In f (scan duration events (Some c) endDate) -> c <= slot_start f.
Proof. apply FreeSlotTheory.scan_starts_after_cursor. Qed.

(** X2.  Free slots are free: when the busy intervals come in start order
    (overlapping or not, inside the window or not), a slot and a busy
    interval never share an instant; the slot ends before the interval
    starts or starts after it ends. *)
Theorem findFreeSlots_slots_avoid_busy
        (startDate endDate : Date) (duration : Z) (bs : list (Z * Z)) :
  StronglySorted by_start bs ->
  forall f b,
    In f (findFreeSlots startDate endDate duration (Some (map busy bs))) ->
    In b bs ->
    (slot_end f <= fst b \/ snd b <= slot_start f)
    /\ forall t, covers t (span f) = true -> covers t b = false.
Proof.
  intros Hsort f b Hf Hb.
  rewrite FreeSlotTheory.findFreeSlots_scan in Hf.
  assert (H : slot_end f <= fst b \/ snd b <= slot_start f).
  { revert startDate Hf. induction Hsort as [|b0 rest Hrest IH Hfirst];
      intros c Hf; [contradiction|].
    cbn [map] in Hf. rewrite FreeSlotTheory.scan_busy in Hf.
    apply in_app_iff in Hf. destruct Hf as [Hf|Hf].
    - left. apply FreeSlotTheory.gap_long_enough in Hf.
      destruct Hf as (_ & Hto & _). injection Hto as Hto.
      destruct Hb as [<-|Hb]; [lia|].
      rewrite Forall_forall in Hfirst. specialize (Hfirst b Hb).
      unfold by_start in Hfirst. lia.
    - destruct Hb as [<-|Hb].
      + right. destruct c as [c|].
        * rewrite FreeSlotTheory.advance_valid in Hf.
          apply scan_after_cursor in Hf. lia.
        * rewrite FreeSlotTheory.advance_invalid_cursor,
            FreeSlotTheory.scan_invalid_cursor in Hf. contradiction.
      + now apply (IH Hb) in Hf. }
  split; [exact H|].
  intros t. unfold covers, span. cbn [fst snd].
  intros Ht. apply andb_true_iff in Ht. destruct Ht as [H1 H2].
  apply Z.leb_le in H1. apply Z.ltb_lt in H2.
  apply andb_false_iff.
  destruct H as [H|H]; [left; apply Z.leb_gt; lia | right; apply Z.ltb_ge; lia].
Qed.

Lemma findFreeSlots_slots_avoid_busy_witness :
  let bs := [(600000, 2400000); (1200000, 1800000); (3000000, 3600000)] in
  StronglySorted by_start bs
  /\ forall f, In f (findFreeSlots (Some 0) (Some 3600000) 5 (Some (map busy bs))) ->
               slot_end f <= 1200000 \/ 1800000 <= slot_start f.
Proof.
  intros bs.
  assert (Hsort : StronglySorted by_start bs)
    by (repeat constructor; unfold by_start; simpl; lia).
  split; [exact Hsort|].
  intros f Hf.
  assert (Hb : In (1200000, 1800000) bs) by (right; left; reflexivity).
  exact (proj1 (@findFreeSlots_slots_avoid_busy (Some 0) (Some 3600000) 5 bs Hsort
                  f (1200000, 1800000) Hf Hb)).
Defined.

(** X3.  With no minimum duration nothing free is missed: every instant of
    the window that lies in no busy interval lies in one of the slots,
    whatever the order of the busy intervals. *)
Theorem findFreeSlots_finds_every_free_instant
        (ws we duration : Z) (bs : list (Z * Z)) (t : Z) :
  duration <= 0 ->
  ws <= t < we ->
  (forall b, In b bs -> covers t b = false) ->
  exists f,
    In f (findFreeSlots (Some ws) (Some we) duration (Some (map busy bs)))
    /\ covers t (span f) = true.
Proof.
  intros Hd Ht Hfree. rewrite FreeSlotTheory.findFreeSlots_scan.
  destruct Ht as [Hws Hwe]. revert ws Hws.
  induction bs as [|b rest IH]; intros c Hc.
  - cbn [map scan]. unfold gap.
    destruct (Z.leb_spec (duration * 60000) (we - c)) as [_|Hlt]; [|lia].
    eexists. split; [left; reflexivity|].
    unfold covers, span; cbn [fst snd slot_start slot_end].
    apply andb_true_iff. split; [apply Z.leb_le | apply Z.ltb_lt]; lia.
  - cbn [map]. rewrite FreeSlotTheory.scan_busy, FreeSlotTheory.advance_valid.
    destruct (Z.lt_ge_cases t (fst b)) as [Hbefore|Hafter].
    + unfold gap at 1.
      destruct (Z.leb_spec (duration * 60000) (fst b - c)) as [_|Hlt]; [|lia].
      eexists. split; [left; reflexivity|].
      unfold covers, span; cbn [fst snd slot_start slot_end].
      apply andb_true_iff. split; [apply Z.leb_le | apply Z.ltb_lt]; lia.
    + assert (Hb : covers t b = false) by (apply Hfree; now left).
      unfold covers in Hb. apply andb_false_iff in Hb.
      assert (Hend : snd b <= t).
      { destruct Hb as [Hb|Hb]; [apply Z.leb_gt in Hb; lia | now apply Z.ltb_ge in Hb]. }
      destruct (IH (fun b' Hb' => Hfree b' (or_intror Hb')) (Z.max c (snd b)))
        as (f & Hf & Hcov); [lia|].
      exists f. split; [|exact Hcov]. apply in_app_iff. now right.
Qed.

Lemma findFreeSlots_finds_every_free_instant_witness :
  let bs := [(3000000, 3600000); (600000, 1200000)] in
  (0 <= 0 /\ 0 <= 2000000 < 3600000)
  /\ exists f,
      In f (findFreeSlots (Some 0) (Some 3600000) 0 (Some (map busy bs)))
      /\ covers 2000000 (span f) = true.
Proof.
  intros bs.
  assert (Hd : 0 <= 0) by lia.
  assert (Ht : 0 <= 2000000 < 3600000) by lia.
  split; [split; assumption|].
  apply (@findFreeSlots_finds_every_free_instant 0 3600000 0 bs 2000000 Hd Ht).
  intros b [<-|[<-|[]]]; reflexivity.
Defined.

(** X4.  A start date that does not parse gives no slot at all, whatever
    the events and the end date: the comparisons with the invalid cursor
    are all false, and no error is raised. *)
Theorem findFreeSlots_invalid_start_finds_nothing
        (endDate : Date) (duration : Z) (items : option (list CalendarEvent)) :
  findFreeSlots None endDate duration items = [].
Proof.
  destruct items as [events|].
  - rewrite FreeSlotTheory.findFreeSlots_scan.
    apply FreeSlotTheory.scan_invalid_cursor.
  - reflexivity.
Qed.

Lemma filter_filter_weaker {A} (p q : A -> bool) (l : list A) :
  (forall a, p a = true -> q a = true) ->
  filter p (filter q l) = filter p l.
Proof.
  intros Hpq. induction l as [|a l IH]; [reflexivity|].
  cbn [filter]. destruct (q a) eqn:Hq; cbn [filter].
  - now rewrite IH.
  - destruct (p a) eqn:Hp; [|exact IH].
    apply Hpq in Hp. congruence.
Qed.

(** X5.  Raising the minimum duration only removes slots: the answer for
    the larger minimum is the answer for the smaller one, in the same
    order, without the slots shorter than the larger minimum. *)
Theorem findFreeSlots_longer_minimum_filters
        (startDate endDate : Date) (d1 d2 : Z) (events : list CalendarEvent) :
  0 <= d1 <= d2 ->
  findFreeSlots startDate endDate d2 (Some events)
  = filter (long_enough d2) (findFreeSlots startDate endDate d1 (Some events)).
Proof.
  intros [H1 H2]. rewrite !FreeSlotTheory.findFreeSlots_scan.
  rewrite (@FreeSlotTheory.scan_filter d2 endDate events) by lia.
  rewrite (@FreeSlotTheory.scan_filter d1 endDate events) by lia.
  symmetry. apply filter_filter_weaker.
  intros f. unfold long_enough. intros H.
  apply Z.leb_le in H. apply Z.leb_le. lia.
Qed.

Lemma findFreeSlots_longer_minimum_filters_witness :
  let events := [busy (600000, 3000000)] in
  0 <= 5 <= 15
  /\ findFreeSlots (Some 0) (Some 3600000) 15 (Some events)
     = filter (long_enough 15) (findFreeSlots (Some 0) (Some 3600000) 5 (Some events)).
Proof.
  intros events.
  assert (H : 0 <= 5 <= 15) by lia.
  split; [exact H|].
  exact (@findFreeSlots_longer_minimum_filters (Some 0) (Some 3600000) 5 15 events H).
Defined.

(** X6.  A busy interval that began before the window and is over when the
    window opens changes nothing, wherever it stands in the list: the
    answer is the same as without it. *)
Theorem findFreeSlots_ignores_earlier_interval
        (ws : Z) (endDate : Date) (duration : Z)
        (pre post : list (Z * Z)) (b : Z * Z) :
  0 <= duration ->
  fst b < ws ->
  snd b <= ws ->
  findFreeSlots (Some ws) endDate duration (Some (map busy (pre ++ b :: post)))
  = findFreeSlots (Some ws) endDate duration (Some (map busy (pre ++ post))).
Proof.
  intros Hd Hs He. rewrite !FreeSlotTheory.findFreeSlots_scan.
  assert (H : forall c, ws <= c ->
                scan duration (map busy (pre ++ b :: post)) (Some c) endDate
                = scan duration (map busy (pre ++ post)) (Some c) endDate).
  { induction pre as [|p pre IH]; intros c Hc.
    - cbn [app map]. rewrite FreeSlotTheory.scan_busy, FreeSlotTheory.advance_valid.
      replace (Z.max c (snd b)) with c by lia.
      unfold gap.
      destruct (Z.leb_spec (duration * 60000) (fst b - c)); [lia|reflexivity].
    - cbn [app map]. rewrite !FreeSlotTheory.scan_busy, FreeSlotTheory.advance_valid.
      rewrite IH by lia. reflexivity. }
  apply H. lia.
Qed.

Lemma findFreeSlots_ignores_earlier_interval_witness :
  (0 <= 30 /\ 0 < 3600000 /\ 1800000 <= 3600000)
  /\ findFreeSlots (Some 3600000) (Some 14400000) 30
                   (Some (map busy ([] ++ (0, 1800000) :: [(7200000, 9000000)])))
     = [ mkFreeSlot 3600000 7200000 60; mkFreeSlot 9000000 14400000 90 ].
Proof.
  assert (H1 : 0 <= 30) by lia.
  assert (H2 : fst (0, 1800000) < 3600000) by (simpl; lia).
  assert (H3 : snd (0, 1800000) <= 3600000) by (simpl; lia).
  split; [repeat split; assumption|].
  rewrite (@findFreeSlots_ignores_earlier_interval
             3600000 (Some 14400000) 30 [] [(7200000, 9000000)] (0, 1800000)
             H1 H2 H3).
  reflexivity.
Defined.

End FreeSlotMore.

(** * More on the credential manager and the tool-call handler *)

Module CredentialMore.

Import CredentialManager.
Import CredentialTheory.

(** A token that is not due: an expiry at least five minutes ahead. *)
Lemma not_due (e now : Z) :
  now + 5 * 60 * 1000 <= e -> e <> 0 ->
  expired (Some e) now = false /\ expiring (Some e) now = false.
Proof.
  intros He H0. unfold expired, expiring. split.
  - apply orb_false_iff. split; [now apply Z.eqb_neq | apply Z.leb_gt; lia].
  - apply Z.ltb_ge. lia.
Qed.

(** X7.  A token whose expiry is at least five minutes ahead is left
    alone: [ensureValidToken] returns with the state exactly as it found
    it; no refresh is attempted, nothing is logged, nothing is written. *)
Theorem ensureValidToken_fresh_token_untouched
        (R : Remote) (now : Z) (s : State) (auth : OAuth2Client) (c : Credentials)
        (e : Z) :
  this_auth s = Some auth ->
  credentials auth = Some c ->
  expiry_date c = Some e ->
  now + 5 * 60 * 1000 <= e ->
  e <> 0 ->
  ensureValidToken R now s = (Return tt, s).
Proof.
  intros Hauth Hc He Hfar H0.
  destruct (@not_due _ _ Hfar H0) as [Hexp Hing].
  unfold ensureValidToken.
  rewrite (@bind_Return _ _ get_auth _ s s (this_auth s)) by reflexivity.
  rewrite Hauth, Hc, He, Hexp, Hing. reflexivity.
Qed.

Lemma ensureValidToken_fresh_token_untouched_witness :
  let s := Scenarios.sample_state (Some (Scenarios.sample_token (Some 5000000)))
                                  (Some (Scenarios.sample_client (Some 5000000))) in
  (1000000 + 5 * 60 * 1000 <= 5000000 /\ 5000000 <> 0)
  /\ ensureValidToken Scenarios.remote_down 1000000 s = (Return tt, s).
Proof.
  intros s.
  assert (Hfar : 1000000 + 5 * 60 * 1000 <= 5000000) by lia.
  assert (H0 : 5000000 <> 0) by lia.
  split; [split; assumption|].
  exact (@ensureValidToken_fresh_token_untouched
           Scenarios.remote_down 1000000 s
           (Scenarios.sample_client (Some 5000000))
           (Scenarios.sample_credentials (Some 5000000))
           5000000 eq_refl eq_refl eq_refl Hfar H0).
Defined.

(** A renewal that is granted and cannot be saved. *)
Lemma refresh_and_save_unsaved (R : Remote) (auth : OAuth2Client) (s : State)
      (fresh : Credentials) :
  refreshAccessToken R auth = Return fresh ->
  key_on_file s = None ->
  exists e,
    refresh_and_save R auth s
    = (Throw e,
       log (EvReadFile CREDENTIALS_PATH)
           (log EvSaveCredentials
                (with_auth (Some (setCredentials auth fresh))
                           (log EvRefreshAccessToken s)))).
Proof.
  intros Href Hkey.
  rewrite (@refresh_and_save_granted R auth s fresh Href).
  apply saveCredentials_failed. now left.
Qed.

(** X8.  A mandatory refresh that the server grants but that cannot be
    saved (the key file is missing or unusable) is reported like a refused
    one: [ensureValidToken] throws "Token inválido, se requiere
    re-autenticación".  The client nevertheless keeps the renewed
    credentials in memory, and the token file is left as it was. *)
Theorem ensureValidToken_mandatory_refresh_unsaved
        (R : Remote) (now : Z) (s : State) (auth : OAuth2Client)
        (c fresh : Credentials) :
  this_auth s = Some auth ->
  credentials auth = Some c ->
  (expiry_date c = None \/ exists e, expiry_date c = Some e /\ e <= now) ->
  refreshAccessToken R auth = Return fresh ->
  key_on_file s = None ->
  fst (ensureValidToken R now s)
  = Throw (Error "Token inválido, se requiere re-autenticación")
  /\ this_auth (snd (ensureValidToken R now s)) = Some (setCredentials auth fresh)
  /\ file_TOKEN (snd (ensureValidToken R now s)) = file_TOKEN s.
Proof.
  intros Hauth Hc Hexp Href Hkey. apply expired_absent_or_past in Hexp.
  rewrite (@ensureValidToken_expired_branch R now s auth c Hauth Hc Hexp).
  set (s1 := log (EvConsoleError "🔄 Token expirado, renovando...") s).
  destruct (@refresh_and_save_unsaved R auth s1 fresh Href Hkey) as [e H].
  run_renewal H. repeat split.
Qed.

Lemma ensureValidToken_mandatory_refresh_unsaved_witness :
  let auth := Scenarios.sample_client (Some 1000) in
  let fresh := Scenarios.sample_credentials (Some 3602000) in
  let s := mkState None None (Some (Scenarios.sample_token (Some 1000))) None
                   Written (Some auth) [] in
  let R := Scenarios.remote_up fresh auth in
  1000 <= 2000
  /\ fst (ensureValidToken R 2000 s)
     = Throw (Error "Token inválido, se requiere re-autenticación")
  /\ this_auth (snd (ensureValidToken R 2000 s))
     = Some (Scenarios.sample_client (Some 3602000)).
Proof.
  intros auth fresh s R.
  assert (Hle : 1000 <= 2000) by lia.
  destruct (@ensureValidToken_mandatory_refresh_unsaved
              R 2000 s auth (Scenarios.sample_credentials (Some 1000)) fresh
              eq_refl eq_refl (or_intror (ex_intro _ 1000 (conj eq_refl Hle)))
              eq_refl eq_refl) as (Hthrow & Hmem & _).
  split; [exact Hle|]. split; [exact Hthrow | exact Hmem].
Defined.



(** X10.  One renewal is enough: after a refresh that was due, granted and
    saved, and that returned an expiry at least five minutes past a later
    instant [later], a second [ensureValidToken] at [later] does nothing
    at all, whatever the server would answer now. *)
Theorem ensureValidToken_second_call_is_idle
        (R R' : Remote) (now later : Z) (s : State) (auth : OAuth2Client)
        (c fresh : Credentials) (key : Key) (e : Z) :
  this_auth s = Some auth ->
  credentials auth = Some c ->
  match expiry_date c with
  | None => True
  | Some old => old = 0 \/ old < now + 5 * 60 * 1000
  end ->
  refreshAccessToken R auth = Return fresh ->
  key_on_file s = Some key ->
  expiry_date fresh = Some e ->
  later + 5 * 60 * 1000 <= e ->
  e <> 0 ->
  let s' := snd (ensureValidToken R now s) in
  ensureValidToken R' later s' = (Return tt, s').
Proof.
  intros Hauth Hc Hdue Href Hkey He Hfar H0 s'.
  pose proof (@ensureValidToken_renewal_in_memory R now s auth c fresh
                Hauth Hc Hdue Href) as Hmem.
  fold s' in Hmem. clearbody s'.
  destruct (@not_due _ _ Hfar H0) as [Hexp Hing].
  unfold ensureValidToken.
  rewrite (@bind_Return _ _ get_auth _ s' s' (this_auth s')) by reflexivity.
  rewrite Hmem. cbn [credentials setCredentials].
  rewrite He, Hexp, Hing. reflexivity.
Qed.

Lemma ensureValidToken_second_call_is_idle_witness :
  let auth := Scenarios.sample_client (Some 1000) in
  let fresh := Scenarios.sample_credentials (Some 3602000) in
  let s := Scenarios.sample_state (Some (Scenarios.sample_token (Some 1000))) (Some auth) in
  let R := Scenarios.remote_up fresh auth in
  let s' := snd (ensureValidToken R 2000 s) in
  ((1000 = 0 \/ 1000 < 2000 + 5 * 60 * 1000)
   /\ 3000 + 5 * 60 * 1000 <= 3602000 /\ 3602000 <> 0)
  /\ ensureValidToken Scenarios.remote_down 3000 s' = (Return tt, s').
Proof.
  intros auth fresh s R s'.
  assert (Hdue : 1000 = 0 \/ 1000 < 2000 + 5 * 60 * 1000) by (right; lia).
  assert (Hfar : 3000 + 5 * 60 * 1000 <= 3602000) by lia.
  assert (H0 : 3602000 <> 0) by lia.
  split; [repeat split; assumption|].
  exact (@ensureValidToken_second_call_is_idle
           R Scenarios.remote_down 2000 3000 s auth
           (Scenarios.sample_credentials (Some 1000)) fresh Scenarios.sample_key
           3602000 eq_refl eq_refl Hdue eq_refl eq_refl eq_refl Hfar H0).
Defined.

(** ** Saving and loading back *)

Lemma key_on_file_keys (s : State) (key : Key) :
  key_on_file s = Some key ->
  exists keys,
    file_CREDENTIALS s = Some (JsonText (JObject keys))
    /\ or_else (installed keys) (web keys) = Some key.
Proof.
  unfold key_on_file.
  destruct (file_CREDENTIALS s) as [[| |[|keys]]|]; try discriminate.
  intros H. now exists keys.
Qed.

(** What the sources of the state after a completed save describe, when no
    token override is set. *)
Lemma described_after_save (s : State) (key : Key) (c : Credentials) :
  env_truthy (env_GOOGLE_TOKEN s) = None ->
  key_on_file s = Some key ->
  described_client (saved (payload_of key c) s)
  = match redirect_uris key with
    | Some uris =>
        Some (setCredentials
                (new_OAuth2 (client_id key) (client_secret key) (hd_error uris))
                c)
    | None => None
    end.
Proof.
  intros Henv Hkey. apply key_on_file_keys in Hkey.
  destruct Hkey as (keys & Hfile & Hkey).
  unfold described_client, token_source, keys_source.
  cbn [saved log with_token env_GOOGLE_TOKEN env_GOOGLE_CREDENTIALS
       file_TOKEN file_CREDENTIALS].
  rewrite Henv, Hfile. cbn [parsed client_described].
  rewrite Hkey. destruct (redirect_uris key); [|reflexivity].
  destruct c; reflexivity.
Qed.

(** A [saveCredentials] that returns has left the state of a completed
    save. *)
Lemma saveCredentials_returned (client : OAuth2Client) (s s' : State)
      (key : Key) (c : Credentials) :
  saveCredentials client s = (Return tt, s') ->
  key_on_file s = Some key ->
  credentials client = Some c ->
  s' = saved (payload_of key c) s.
Proof.
  intros Hrun Hkey Hc.
  rewrite (@saveCredentials_with_key client s key c Hkey Hc) in Hrun.
  destruct (writeFile_TOKEN s); [|discriminate|discriminate].
  now injection Hrun as <-.
Qed.

(** X11.  Save, then load, gives the credentials back: when
    [saveCredentials] returns, with no token override in the environment
    and a key that lists redirect URIs, the client
    [loadSavedCredentialsIfExist] then builds carries exactly the four
    credential fields of the saved client, with the identifier and secret
    of the key. *)
Theorem saveCredentials_then_load_round_trip
        (client : OAuth2Client) (s s' : State) (key : Key) (c : Credentials)
        (uris : list string) :
  saveCredentials client s = (Return tt, s') ->
  env_truthy (env_GOOGLE_TOKEN s) = None ->
  key_on_file s = Some key ->
  redirect_uris key = Some uris ->
  credentials client = Some c ->
  fst (loadSavedCredentialsIfExist s')
  = Return (Some (setCredentials
                    (new_OAuth2 (client_id key) (client_secret key) (hd_error uris))
                    c)).
Proof.
  intros Hrun Henv Hkey Huris Hc.
  rewrite (@saveCredentials_returned client s s' key c Hrun Hkey Hc).
  destruct (loadSavedCredentialsIfExist_run (saved (payload_of key c) s))
    as (s2 & Hload & _).
  rewrite Hload. cbn [fst].
  rewrite (@described_after_save s key c Henv Hkey), Huris. reflexivity.
Qed.

Lemma saveCredentials_then_load_round_trip_witness :
  let client := Scenarios.sample_client (Some 5000) in
  let s := Scenarios.sample_state None None in
  saveCredentials client s = (Return tt, snd (saveCredentials client s))
  /\ fst (loadSavedCredentialsIfExist (snd (saveCredentials client s)))
     = Return (Some client).
Proof.
  intros client s.
  assert (Hrun : saveCredentials client s = (Return tt, snd (saveCredentials client s)))
    by reflexivity.
  split; [exact Hrun|].
  exact (@saveCredentials_then_load_round_trip
           client s _ Scenarios.sample_key (Scenarios.sample_credentials (Some 5000))
           ["http://localhost"] Hrun eq_refl eq_refl eq_refl eq_refl).
Defined.

(** X12.  A key without [redirect_uris] is not enough to load what was
    saved with it: [saveCredentials] does not look at [redirect_uris], and
    when it returns the token is in the token file; the next
    [loadSavedCredentialsIfExist] nevertheless returns [null], because
    reading [key.redirect_uris[0]] throws inside its [try]. *)
Theorem saveCredentials_then_load_needs_redirect_uris
        (client : OAuth2Client) (s s' : State) (key : Key) (c : Credentials) :
  saveCredentials client s = (Return tt, s') ->
  env_truthy (env_GOOGLE_TOKEN s) = None ->
  key_on_file s = Some key ->
  redirect_uris key = None ->
  credentials client = Some c ->
  file_TOKEN s' = Some (JsonText (JObject (payload_of key c)))
  /\ fst (loadSavedCredentialsIfExist s') = Return None.
Proof.
  intros Hrun Henv Hkey Huris Hc.
  rewrite (@saveCredentials_returned client s s' key c Hrun Hkey Hc).
  split; [reflexivity|].
  destruct (loadSavedCredentialsIfExist_run (saved (payload_of key c) s))
    as (s2 & Hload & _).
  rewrite Hload. cbn [fst].
  rewrite (@described_after_save s key c Henv Hkey), Huris. reflexivity.
Qed.

Lemma saveCredentials_then_load_needs_redirect_uris_witness :
  let key := mkKey (Some "client-id") (Some "client-secret") None in
  let client := Scenarios.sample_client (Some 5000) in
  let s := mkState None None None
                   (Some (JsonText (JObject (mkKeysJson None (Some key)))))
                   Written None [] in
  saveCredentials client s = (Return tt, snd (saveCredentials client s))
  /\ fst (loadSavedCredentialsIfExist (snd (saveCredentials client s))) = Return None.
Proof.
  intros key client s.
  assert (Hrun : saveCredentials client s = (Return tt, snd (saveCredentials client s)))
    by reflexivity.
  split; [exact Hrun|].
  exact (proj2 (@saveCredentials_then_load_needs_redirect_uris
                  client s _ key (Scenarios.sample_credentials (Some 5000))
                  Hrun eq_refl eq_refl eq_refl eq_refl)).
Defined.

(** The described client looks at the environment and at the two files
    only; with a token override, not at the token file either. *)
Lemma described_client_with_override (s s' : State) (t : text TokenJson) :
  env_truthy (env_GOOGLE_TOKEN s) = Some t ->
  env_GOOGLE_TOKEN s' = env_GOOGLE_TOKEN s ->
  env_GOOGLE_CREDENTIALS s' = env_GOOGLE_CREDENTIALS s ->
  file_CREDENTIALS s' = file_CREDENTIALS s ->
  described_client s' = described_client s.
Proof.
  intros Henv H1 H2 H3.
  unfold described_client, token_source, keys_source.
  now rewrite H1, H2, H3, Henv.
Qed.

(** X13.  A token override in the environment shadows the token file for
    good: with [GOOGLE_TOKEN] set, what [loadSavedCredentialsIfExist]
    returns after a [saveCredentials] is what it returned before it,
    whether the save succeeded or not; a renewed token written to the file
    is never read back. *)
Theorem loadSavedCredentialsIfExist_override_shadows_save
        (client : OAuth2Client) (s : State) (t : text TokenJson) :
  env_truthy (env_GOOGLE_TOKEN s) = Some t ->
  fst (loadSavedCredentialsIfExist (snd (saveCredentials client s)))
  = fst (loadSavedCredentialsIfExist s).
Proof.
  intros Henv.
  destruct (loadSavedCredentialsIfExist_run s) as (s1 & Hrun1 & _).
  destruct (loadSavedCredentialsIfExist_run (snd (saveCredentials client s)))
    as (s2 & Hrun2 & _).
  rewrite Hrun1, Hrun2. cbn [fst]. f_equal.
  destruct (saveCredentials_cases client s)
    as [(key & c & _ & _ & _ & Hsave) | [(e & _ & Hsave) | (e & _ & Hsave)]];
    rewrite Hsave; cbn [snd];
    now apply (@described_client_with_override s _ t Henv).
Qed.

Lemma loadSavedCredentialsIfExist_override_shadows_save_witness :
  let stale := Scenarios.sample_token (Some 1000) in
  let s := mkState (Some stale) None None
                   (Some (JsonText (JObject Scenarios.sample_keys)))
                   Written None [] in
  let s' := snd (saveCredentials (Scenarios.sample_client (Some 9000)) s) in
  file_TOKEN s' = Some (Scenarios.sample_token (Some 9000))
  /\ fst (loadSavedCredentialsIfExist s')
     = Return (Some (Scenarios.sample_client (Some 1000))).
Proof.
  intros stale s s'. split; [reflexivity|].
  unfold s'.
  rewrite (@loadSavedCredentialsIfExist_override_shadows_save
             (Scenarios.sample_client (Some 9000)) s stale eq_refl).
  reflexivity.
Defined.

(** ** The tool-call handler *)

(** X14.  The handler never throws: whatever the server answers to a
    refresh and whatever the tool method does, [callTool] returns a
    result. *)
Theorem callTool_never_throws
        (R : Remote) (methods : string -> M ToolResult) (now : Z)
        (name : string) (s : State) :
  exists r, fst (callTool R methods now name s) = Return r.
Proof.
  unfold callTool, try_catch.
  match goal with
  | |- context [match ?body s with _ => _ end] => destruct (body s) as [[r|e] s']
  end.
  - now exists r.
  - eexists. reflexivity.
Qed.

(** X15.  No tool runs without a passed token check: when
    [ensureValidToken] throws, for whatever reason, the tool call answers
    with a failed result carrying the message of that error, and all it
    adds to what [ensureValidToken] did is one line on the console; the
    tool method is not called. *)
Theorem callTool_stops_at_failed_token_check
        (R : Remote) (methods : string -> M ToolResult) (now : Z)
        (name : string) (s : State) (e : JsError) :
  fst (ensureValidToken R now s) = Throw e ->
  callTool R methods now name s
  = (Return (mkToolResult ("Error: " ++ err_message e) true),
     log (EvConsoleError ("Error en " ++ name ++ ": " ++ err_message e))
         (snd (ensureValidToken R now s))).
Proof.
  intros H. unfold callTool.
  destruct (ensureValidToken R now s) as [o s1] eqn:Hens.
  cbn [fst snd] in *. subst o.
  erewrite try_catch_Throw by (erewrite bind_Throw by exact Hens; reflexivity).
  reflexivity.
Qed.

Lemma callTool_stops_at_failed_token_check_witness :
  let s := Scenarios.sample_state None None in
  callTool Scenarios.remote_down Scenarios.echo_methods 1000 "docs_get" s
  = (Return (mkToolResult "Error: No hay autenticación disponible" true),
     log (EvConsoleError "Error en docs_get: No hay autenticación disponible") s).
Proof.
  intros s.
  exact (@callTool_stops_at_failed_token_check
           Scenarios.remote_down Scenarios.echo_methods 1000 "docs_get" s
           (Error "No hay autenticación disponible") eq_refl).
Defined.

(** X16.  An unknown tool name is answered, not thrown: once the token
    check has passed, a name outside the list of tools gives a failed
    result "Error: Herramienta desconocida: <name>", and no method is
    called.  The token check, with any refresh it makes, has already run
    by then. *)
Theorem callTool_unknown_tool
        (R : Remote) (methods : string -> M ToolResult) (now : Z)
        (name : string) (s s1 : State) :
  ensureValidToken R now s = (Return tt, s1) ->
  known_tool name = false ->
  callTool R methods now name s
  = (Return (mkToolResult ("Error: Herramienta desconocida: " ++ name) true),
     log (EvConsoleError ("Error en " ++ name ++ ": Herramienta desconocida: " ++ name))
         s1).
Proof.
  intros Hens Hname. unfold callTool.
  erewrite try_catch_Throw.
  2:{ erewrite bind_Return by exact Hens. rewrite Hname. reflexivity. }
  reflexivity.
Qed.

Lemma callTool_unknown_tool_witness :
  let s := Scenarios.sample_state None (Some (Scenarios.sample_client (Some 5000000))) in
  fst (callTool Scenarios.remote_down Scenarios.echo_methods 1000000
                "Gmail_List_Messages" s)
  = Return (mkToolResult "Error: Herramienta desconocida: Gmail_List_Messages" true).
Proof.
  intros s.
  rewrite (@callTool_unknown_tool
             Scenarios.remote_down Scenarios.echo_methods 1000000
             "Gmail_List_Messages" s s eq_refl eq_refl).
  reflexivity.
Defined.

(** X17.  A known tool gets its method's answer, and its method's failure
    as an answer: once the token check has passed, the result of the
    method is returned as it is, and an error the method throws comes back
    as a failed result carrying the message of that error. *)
Theorem callTool_known_tool
        (R : Remote) (methods : string -> M ToolResult) (now : Z)
        (name : string) (s s1 : State) :
  ensureValidToken R now s = (Return tt, s1) ->
  known_tool name = true ->
  (forall r s2,
      methods name (log (EvTool name) s1) = (Return r, s2) ->
      callTool R methods now name s = (Return r, s2))
  /\ (forall e s2,
         methods name (log (EvTool name) s1) = (Throw e, s2) ->
         callTool R methods now name s
         = (Return (mkToolResult ("Error: " ++ err_message e) true),
            log (EvConsoleError ("Error en " ++ name ++ ": " ++ err_message e)) s2)).
Proof.
  intros Hens Hname. split; intros x s2 Hm; unfold callTool.
  - erewrite try_catch_Return; [reflexivity|].
    erewrite bind_Return by exact Hens. rewrite Hname.
    rewrite bind_emit. exact Hm.
  - erewrite try_catch_Throw.
    2:{ erewrite bind_Return by exact Hens. rewrite Hname.
        rewrite bind_emit. exact Hm. }
    reflexivity.
Qed.

Lemma callTool_known_tool_witness :
  let s := Scenarios.sample_state None (Some (Scenarios.sample_client (Some 5000000))) in
  callTool Scenarios.remote_down Scenarios.echo_methods 1000000 "docs_get" s
  = (Return (mkToolResult "docs_get" false), log (EvTool "docs_get") s).
Proof.
  intros s.
  exact (proj1 (@callTool_known_tool
                  Scenarios.remote_down Scenarios.echo_methods 1000000
                  "docs_get" s s eq_refl eq_refl)
               (mkToolResult "docs_get" false) (log (EvTool "docs_get") s) eq_refl).
Defined.

(** ** Start-up *)

Import Startup.

(** Every outcome of the grant from scratch. *)
Lemma authenticate_from_scratch_outcome (R : Remote) (s0 s : State) :
  key_on_file s = key_on_file s0 ->
  writeFile_TOKEN s = writeFile_TOKEN s0 ->
  this_auth s = this_auth s0 ->
  match granted_client R s0 with
  | Some client =>
      exists s', authenticate_from_scratch R s = (Return client, s')
                 /\ this_auth s' = this_auth s0
  | None =>
      exists e s', authenticate_from_scratch R s = (Throw e, s')
                   /\ this_auth s' = this_auth s0
  end.
Proof.
  intros Hkeys Hwrite Hauth. unfold granted_client, authenticate_from_scratch.
  destruct (authenticate R) as [granted|e] eqn:Hgrant.
  - rewrite bind_emit. erewrite bind_Return by reflexivity. cbv beta.
    destruct (credentials granted) as [c|] eqn:Hc.
    + assert (Hcan : can_save granted (log EvAuthenticate s) = can_save granted s0).
      { unfold can_save. cbn [writeFile_TOKEN log].
        change (key_on_file (log EvAuthenticate s)) with (key_on_file s).
        now rewrite Hkeys, Hwrite. }
      rewrite <- Hcan.
      destruct (saveCredentials_cases granted (log EvAuthenticate s))
        as [(key & c' & Hkey & Hc' & Hw & Hsave)
           | [(e & Hwhy & Hsave) | (e & Hw & Hsave)]].
      * unfold can_save. rewrite Hkey, Hc', Hw.
        eexists. split; [erewrite bind_Return by exact Hsave; reflexivity|].
        exact Hauth.
      * replace (can_save granted (log EvAuthenticate s)) with false.
        2:{ symmetry. unfold can_save.
            destruct Hwhy as [H | [H | H]]; rewrite H.
            - reflexivity.
            - now destruct (key_on_file _).
            - now destruct (key_on_file _), (credentials granted). }
        exists e. eexists.
        split; [erewrite bind_Throw by exact Hsave; reflexivity|]. exact Hauth.
      * replace (can_save granted (log EvAuthenticate s)) with false.
        2:{ symmetry. unfold can_save. rewrite Hw.
            now destruct (key_on_file _), (credentials granted). }
        exists e. eexists.
        split; [erewrite bind_Throw by exact Hsave; reflexivity|]. exact Hauth.
    + eexists. split; [reflexivity|exact Hauth].
  - exists e. eexists. split.
    + rewrite bind_emit. erewrite bind_Throw by reflexivity. reflexivity.
    + exact Hauth.
Qed.

(** Every outcome of [authorize]. *)
Lemma authorize_outcome (R : Remote) (s : State) :
  match startup_client R s with
  | Some client =>
      exists s', authorize R s = (Return client, s') /\ this_auth s' = this_auth s
  | None =>
      exists e s', authorize R s = (Throw e, s') /\ this_auth s' = this_auth s
  end.
Proof.
  unfold startup_client, authorize.
  destruct (loadSavedCredentialsIfExist_run s) as (s1 & Hload & Hread).
  erewrite bind_Return by exact Hload.
  pose proof (key_on_file_only_read Hread) as Hkeys.
  destruct Hread as (_ & _ & _ & _ & Hwrite & Hauth & _).
  destruct (described_client s) as [loaded|].
  - unfold try_catch. rewrite bind_emit. unfold lift.
    destruct (getAccessToken R loaded) as [probed|e].
    + eexists. split; [reflexivity|exact Hauth].
    + rewrite bind_console_error.
      apply authenticate_from_scratch_outcome; assumption.
  - apply authenticate_from_scratch_outcome; assumption.
Qed.

(** X18.  [initialize] succeeds exactly when [authorize] ends up with a
    client: the saved client when it loads and passes the probe, else the
    client of the interactive grant, provided the grant is not refused and
    its credentials, if it has any, are saved (the key file holds a client
    key and the file system accepts the write of the token file).  On
    success [this.auth] is that client.  Otherwise, a refused write
    included, [initialize] rethrows the very error of [authorize] and
    leaves [this.auth] as it was. *)
Theorem initialize_outcome (R : Remote) (s : State) :
  match startup_client R s with
  | Some client =>
      fst (authorize R s) = Return client
      /\ fst (Server.initialize R s) = Return tt
      /\ this_auth (snd (Server.initialize R s)) = Some client
  | None =>
      (exists e, fst (authorize R s) = Throw e
                 /\ fst (Server.initialize R s) = Throw e)
      /\ this_auth (snd (Server.initialize R s)) = this_auth s
  end.
Proof.
  pose proof (authorize_outcome R s) as H. unfold Server.initialize.
  destruct (startup_client R s) as [client|].
  - destruct H as (s1 & Hrun & _). rewrite Hrun.
    erewrite try_catch_Return
      by (erewrite bind_Return by exact Hrun; reflexivity).
    repeat split.
  - destruct H as (e & s1 & Hrun & Hauth). rewrite Hrun.
    erewrite try_catch_Throw by (erewrite bind_Throw by exact Hrun; reflexivity).
    split; [exists e; split; reflexivity|]. exact Hauth.
Qed.

(** A start-up whose grant succeeds and whose write is refused: with the
    key file in place and no token file, [authorize] throws the error of
    the file system, [initialize] rethrows it, [this.auth] stays unset and
    the token file is left empty. *)
Example initialize_with_refused_write :
  let granted := Scenarios.sample_client (Some 9000) in
  let R := Scenarios.remote_up (Scenarios.sample_credentials (Some 9000)) granted in
  let s := with_writeFile (WriteRejected Scenarios.EFBIG)
             (Scenarios.sample_state None None) in
  startup_client R s = None
  /\ fst (authorize R s) = Throw Scenarios.EFBIG
  /\ fst (Server.initialize R s) = Throw Scenarios.EFBIG
  /\ this_auth (snd (Server.initialize R s)) = None
  /\ file_TOKEN (snd (Server.initialize R s)) = Some EmptyText.
Proof. repeat split. Qed.

End CredentialMore.

(** * The raw message of the Gmail tools *)

Module GmailTheory.

Import Gmail.

#[local] Open Scope N_scope.

(** A property of the sextets checked on all sixty-four. *)
Lemma below_64 (P : N -> bool) :
  forallb P (map N.of_nat (seq 0 64)) = true ->
  forall k, k < 64 -> P k = true.
Proof.
  intros H k Hk. rewrite forallb_forall in H. apply H.
  apply in_map_iff. exists (N.to_nat k). split; [apply N2Nat.id|].
  apply in_seq. lia.
Qed.

Lemma url_digit_facts (k : N) :
  k < 64 ->
  Ascii.eqb (url_digit k) "=" = false
  /\ url_safe (url_digit k) = true
  /\ url_value (url_digit k) = Some k.
Proof.
  intros Hk.
  pose proof (below_64
                (fun k => negb (Ascii.eqb (url_digit k) "=")
                          && url_safe (url_digit k)
                          && match url_value (url_digit k) with
                             | Some v => v =? k
                             | None => false
                             end)) as H.
  specialize (H eq_refl k Hk). cbv beta in H.
  apply andb_true_iff in H. destruct H as [H H3].
  apply andb_true_iff in H. destruct H as [H1 H2].
  apply negb_true_iff in H1.
  split; [exact H1|]. split; [exact H2|].
  destruct (url_value (url_digit k)) as [v|]; [|discriminate].
  apply N.eqb_eq in H3. now subst.
Qed.

Lemma strip_trailing_keeps (c x : ascii) (rest : string) :
  Ascii.eqb x c = false ->
  strip_trailing c (String x rest) = String x (strip_trailing c rest).
Proof.
  intros H. cbn [strip_trailing]. rewrite H.
  now destruct (strip_trailing c rest).
Qed.

Lemma byte_bounded (a : ascii) : N_of_ascii a < 256.
Proof. apply N_ascii_bounded. Qed.

Ltac sextets :=
  zify; Z.to_euclidean_division_equations; lia.

(** The four equations of the encoded message. *)
Lemma encodedMessage_nil : encodedMessage "" = ""%string.
Proof. reflexivity. Qed.

Lemma encodedMessage_one (a : ascii) :
  let x := N_of_ascii a in
  encodedMessage (String a "")
  = String (url_digit (x / 4)) (String (url_digit ((x mod 4) * 16)) "").
Proof.
  intros x. pose proof (byte_bounded a) as Ha. fold x in Ha.
  unfold encodedMessage. cbn [toString_base64 replace_all]. fold x.
  fold (url_digit (x / 4)). fold (url_digit ((x mod 4) * 16)).
  destruct (@url_digit_facts (x / 4)) as (H0 & _); [sextets|].
  destruct (@url_digit_facts ((x mod 4) * 16)) as (H1 & _); [sextets|].
  rewrite !strip_trailing_keeps by assumption. reflexivity.
Qed.

Lemma encodedMessage_two (a b : ascii) :
  let x := N_of_ascii a in
  let y := N_of_ascii b in
  encodedMessage (String a (String b ""))
  = String (url_digit (x / 4))
      (String (url_digit ((x mod 4) * 16 + y / 16))
         (String (url_digit ((y mod 16) * 4)) "")).
Proof.
  intros x y.
  pose proof (byte_bounded a) as Ha. pose proof (byte_bounded b) as Hb.
  fold x in Ha. fold y in Hb.
  unfold encodedMessage. cbn [toString_base64 replace_all]. fold x. fold y.
  fold (url_digit (x / 4)). fold (url_digit ((x mod 4) * 16 + y / 16)).
  fold (url_digit ((y mod 16) * 4)).
  destruct (@url_digit_facts (x / 4)) as (H0 & _); [sextets|].
  destruct (@url_digit_facts ((x mod 4) * 16 + y / 16)) as (H1 & _); [sextets|].
  destruct (@url_digit_facts ((y mod 16) * 4)) as (H2 & _); [sextets|].
  rewrite !strip_trailing_keeps by assumption. reflexivity.
Qed.

Lemma encodedMessage_three (a b c : ascii) (rest : string) :
  let x := N_of_ascii a in
  let y := N_of_ascii b in
  let z := N_of_ascii c in
  encodedMessage (String a (String b (String c rest)))
  = String (url_digit (x / 4))
      (String (url_digit ((x mod 4) * 16 + y / 16))
         (String (url_digit ((y mod 16) * 4 + z / 64))
            (String (url_digit (z mod 64)) (encodedMessage rest)))).
Proof.
  intros x y z.
  pose proof (byte_bounded a) as Ha. pose proof (byte_bounded b) as Hb.
  pose proof (byte_bounded c) as Hc.
  fold x in Ha. fold y in Hb. fold z in Hc.
  unfold encodedMessage. cbn [toString_base64 replace_all]. fold x. fold y. fold z.
  fold (url_digit (x / 4)). fold (url_digit ((x mod 4) * 16 + y / 16)).
  fold (url_digit ((y mod 16) * 4 + z / 64)). fold (url_digit (z mod 64)).
  destruct (@url_digit_facts (x / 4)) as (H0 & _); [sextets|].
  destruct (@url_digit_facts ((x mod 4) * 16 + y / 16)) as (H1 & _); [sextets|].
  destruct (@url_digit_facts ((y mod 16) * 4 + z / 64)) as (H2 & _); [sextets|].
  destruct (@url_digit_facts (z mod 64)) as (H3 & _); [sextets|].
  rewrite !strip_trailing_keeps by assumption. reflexivity.
Qed.

(** Induction three bytes at a time. *)
Lemma string_ind3 (P : string -> Prop) :
  P ""%string ->
  (forall a, P (String a "")) ->
  (forall a b, P (String a (String b ""))) ->
  (forall a b c rest, P rest -> P (String a (String b (String c rest)))) ->
  forall s, P s.
Proof.
  intros H0 H1 H2 H3.
  assert (H : forall s, P s /\ (forall a, P (String a s))
                        /\ (forall a b, P (String a (String b s)))).
  { induction s as [|c s (IH0 & IH1 & IH2)].
    - repeat split; auto.
    - split; [apply IH1|]. split; [intros a; apply IH2|].
      intros a b. now apply H3. }
  intros s. apply H.
Qed.

(** X19.  The encoded message is made of URL-safe characters only:
    letters, digits, "-" and "_"; no "+", no "/", and no "=" padding is
    left, whatever the bytes of the message. *)
Theorem encodedMessage_is_url_safe (message : string) :
  every url_safe (encodedMessage message) = true
  /\ occurs "+" (encodedMessage message) = false
  /\ occurs "/" (encodedMessage message) = false
  /\ occurs "=" (encodedMessage message) = false.
Proof.
  assert (Hsafe : every url_safe (encodedMessage message) = true).
  { induction message as [| a | a b | a b c rest IH] using string_ind3.
    - reflexivity.
    - pose proof (byte_bounded a).
      rewrite encodedMessage_one. cbv zeta. cbn [every].
      destruct (@url_digit_facts (N_of_ascii a / 4)) as (_ & -> & _); [sextets|].
      destruct (@url_digit_facts ((N_of_ascii a mod 4) * 16)) as (_ & -> & _);
        [sextets|].
      reflexivity.
    - pose proof (byte_bounded a). pose proof (byte_bounded b).
      rewrite encodedMessage_two. cbv zeta. cbn [every].
      destruct (@url_digit_facts (N_of_ascii a / 4)) as (_ & -> & _); [sextets|].
      destruct (@url_digit_facts ((N_of_ascii a mod 4) * 16 + N_of_ascii b / 16))
        as (_ & -> & _); [sextets|].
      destruct (@url_digit_facts ((N_of_ascii b mod 16) * 4)) as (_ & -> & _);
        [sextets|].
      reflexivity.
    - pose proof (byte_bounded a). pose proof (byte_bounded b).
      pose proof (byte_bounded c).
      rewrite encodedMessage_three. cbv zeta. cbn [every].
      destruct (@url_digit_facts (N_of_ascii a / 4)) as (_ & -> & _); [sextets|].
      destruct (@url_digit_facts ((N_of_ascii a mod 4) * 16 + N_of_ascii b / 16))
        as (_ & -> & _); [sextets|].
      destruct (@url_digit_facts ((N_of_ascii b mod 16) * 4 + N_of_ascii c / 64))
        as (_ & -> & _); [sextets|].
      destruct (@url_digit_facts (N_of_ascii c mod 64)) as (_ & -> & _); [sextets|].
      exact IH. }
  assert (Hnone : forall c s, url_safe c = false ->
                              every url_safe s = true -> occurs c s = false).
  { intros c s Hc. induction s as [|x s IH]; [reflexivity|].
    cbn [every occurs]. intros H. apply andb_true_iff in H. destruct H as [Hx Hs].
    rewrite (IH Hs), orb_false_r.
    destruct (Ascii.eqb_spec x c) as [->|]; [congruence|reflexivity]. }
  split; [exact Hsafe|].
  repeat split; apply Hnone; auto.
Qed.

(** X20.  The encoded message has four characters for every three bytes,
    rounded up: its length is [(4 * n + 2) / 3] for a message of [n]
    bytes. *)
Theorem encodedMessage_length (message : string) :
  String.length (encodedMessage message)
  = ((4 * String.length message + 2) / 3)%nat.
Proof.
  induction message as [| a | a b | a b c rest IH] using string_ind3.
  - reflexivity.
  - rewrite encodedMessage_one. reflexivity.
  - rewrite encodedMessage_two. reflexivity.
  - rewrite encodedMessage_three. cbv zeta. cbn [String.length].
    rewrite IH.
    replace (4 * S (S (S (String.length rest))) + 2)%nat
      with (4 * String.length rest + 2 + 4 * 3)%nat by lia.
    rewrite Nat.div_add by lia. lia.
Qed.

(** Decoding undoes the encoding. *)
Lemma encodedMessage_decodes (m : string) :
  base64url_decode (encodedMessage m) = Some m.
Proof.
  induction m as [| a | a b | a b c rest IH] using string_ind3.
  - reflexivity.
  - pose proof (byte_bounded a).
    rewrite encodedMessage_one. cbv zeta. cbn [base64url_decode].
    destruct (@url_digit_facts (N_of_ascii a / 4)) as (_ & _ & ->); [sextets|].
    destruct (@url_digit_facts ((N_of_ascii a mod 4) * 16)) as (_ & _ & ->);
      [sextets|].
    replace (N_of_ascii a / 4 * 4 + N_of_ascii a mod 4 * 16 / 16)
      with (N_of_ascii a) by sextets.
    now rewrite ascii_N_embedding.
  - pose proof (byte_bounded a). pose proof (byte_bounded b).
    rewrite encodedMessage_two. cbv zeta. cbn [base64url_decode].
    destruct (@url_digit_facts (N_of_ascii a / 4)) as (_ & _ & ->); [sextets|].
    destruct (@url_digit_facts ((N_of_ascii a mod 4) * 16 + N_of_ascii b / 16))
      as (_ & _ & ->); [sextets|].
    destruct (@url_digit_facts ((N_of_ascii b mod 16) * 4)) as (_ & _ & ->);
      [sextets|].
    replace (N_of_ascii a / 4 * 4
             + (N_of_ascii a mod 4 * 16 + N_of_ascii b / 16) / 16)
      with (N_of_ascii a) by sextets.
    replace ((N_of_ascii a mod 4 * 16 + N_of_ascii b / 16) mod 16 * 16
             + N_of_ascii b mod 16 * 4 / 4)
      with (N_of_ascii b) by sextets.
    now rewrite !ascii_N_embedding.
  - pose proof (byte_bounded a). pose proof (byte_bounded b).
    pose proof (byte_bounded c).
    rewrite encodedMessage_three. cbv zeta. cbn [base64url_decode].
    destruct (@url_digit_facts (N_of_ascii a / 4)) as (_ & _ & ->); [sextets|].
    destruct (@url_digit_facts ((N_of_ascii a mod 4) * 16 + N_of_ascii b / 16))
      as (_ & _ & ->); [sextets|].
    destruct (@url_digit_facts ((N_of_ascii b mod 16) * 4 + N_of_ascii c / 64))
      as (_ & _ & ->); [sextets|].
    destruct (@url_digit_facts (N_of_ascii c mod 64)) as (_ & _ & ->); [sextets|].
    rewrite IH.
    replace (N_of_ascii a / 4 * 4
             + (N_of_ascii a mod 4 * 16 + N_of_ascii b / 16) / 16)
      with (N_of_ascii a) by sextets.
    replace ((N_of_ascii a mod 4 * 16 + N_of_ascii b / 16) mod 16 * 16
             + (N_of_ascii b mod 16 * 4 + N_of_ascii c / 64) / 4)
      with (N_of_ascii b) by sextets.
    replace ((N_of_ascii b mod 16 * 4 + N_of_ascii c / 64) mod 4 * 64
             + N_of_ascii c mod 64)
      with (N_of_ascii c) by sextets.
    now rewrite !ascii_N_embedding.
Qed.

(** X21.  Nothing of the message is lost in the encoding: decoding the
    unpadded base64url text gives the message back, byte for byte, so two
    different messages never get the same encoded text. *)
Theorem encodedMessage_round_trip (message : string) :
  base64url_decode (encodedMessage message) = Some message
  /\ forall other, encodedMessage other = encodedMessage message -> other = message.
Proof.
  split; [apply encodedMessage_decodes|].
  intros other Heq.
  pose proof (encodedMessage_decodes other) as H1.
  rewrite Heq, encodedMessage_decodes in H1. congruence.
Qed.

#[local] Close Scope N_scope.

(** A line ends at the first line feed: two texts that split the same way
    around a line feed, with none before it, have the same two parts. *)
Lemma first_line_determined (x x' r r' : string) :
  occurs "010" x = false ->
  occurs "010" x' = false ->
  (x ++ LF ++ r = x' ++ LF ++ r')%string ->
  x = x' /\ r = r'.
Proof.
  revert x'. induction x as [|c x IH]; intros [|c' x'] Hx Hx' Heq;
    cbn [append occurs LF] in *.
  - injection Heq as ->. now split.
  - unfold LF in Heq. cbn [append] in Heq. injection Heq as <- _.
    apply orb_false_iff in Hx'. destruct Hx' as [Hc _].
    now rewrite Ascii.eqb_refl in Hc.
  - unfold LF in Heq. cbn [append] in Heq. injection Heq as -> _.
    apply orb_false_iff in Hx. destruct Hx as [Hc _].
    now rewrite Ascii.eqb_refl in Hc.
  - injection Heq as -> Heq.
    apply orb_false_iff in Hx. apply orb_false_iff in Hx'.
    destruct (IH x' (proj2 Hx) (proj2 Hx') Heq) as [-> ->]. now split.
Qed.

(** X22.  No header is confused with another: when neither recipient nor
    subject contains a line feed, the [raw] field determines recipient,
    subject and body; two calls that send the same [raw] were given the
    same three arguments. *)
Theorem raw_determines_arguments (to subject body to' subject' body' : string) :
  occurs "010" to = false ->
  occurs "010" subject = false ->
  occurs "010" to' = false ->
  occurs "010" subject' = false ->
  raw to subject body = raw to' subject' body' ->
  to = to' /\ subject = subject' /\ body = body'.
Proof.
  intros Hto Hsub Hto' Hsub' Hraw. unfold raw in Hraw.
  assert (Hmsg : raw_message to subject body = raw_message to' subject' body').
  { pose proof (encodedMessage_decodes (raw_message to subject body)) as H1.
    rewrite Hraw, encodedMessage_decodes in H1. congruence. }
  clear Hraw. rename Hmsg into Hraw.
  unfold raw_message in Hraw. cbn [String.concat] in Hraw.
  injection Hraw as Hraw.
  apply first_line_determined in Hraw; [|assumption|assumption].
  destruct Hraw as [-> Hraw]. split; [reflexivity|].
  injection Hraw as Hraw.
  apply first_line_determined in Hraw; [|assumption|assumption].
  destruct Hraw as [-> Hraw]. split; [reflexivity|].
  unfold LF in Hraw. cbn [append] in Hraw. now injection Hraw.
Qed.

Lemma raw_determines_arguments_witness :
  (occurs "010" "ana@example.com" = false /\ occurs "010" "Hola" = false)
  /\ forall to subject body,
      occurs "010" to = false -> occurs "010" subject = false ->
      raw to subject body = raw "ana@example.com" "Hola" "Nos vemos" ->
      to = "ana@example.com" /\ subject = "Hola" /\ body = "Nos vemos".
Proof.
  split; [split; reflexivity|].
  intros to subject body Hto Hsub Hraw.
  exact (@raw_determines_arguments to subject body
           "ana@example.com" "Hola" "Nos vemos" Hto Hsub eq_refl eq_refl Hraw).
Defined.

(** Without that: a line feed in the recipient passes for a header of its
    own, and two different calls send the same message. *)
Example raw_message_header_injection :
  raw_message ("ana@example.com" ++ LF ++ "Subject: Urgente") "Hola" "Nos vemos"
  = raw_message "ana@example.com" ("Urgente" ++ LF ++ "Subject: Hola") "Nos vemos".
Proof. reflexivity. Qed.

End GmailTheory.

(** * The event [updateCalendarEvent] sends *)

Module CalendarTheory.

Import Calendar.

Lemma or_keep_assoc (a b c : option string) :
  or_keep a (or_keep b c) = or_keep (or_keep a b) c.
Proof.
  unfold or_keep. destruct (given a) eqn:Ha.
  - now rewrite Ha.
  - now destruct (given b).
Qed.

Lemma given_or_keep (a b : option string) :
  given (or_keep a b) = given a || given b.
Proof.
  unfold or_keep. destruct (given a) eqn:Ha; [now rewrite Ha|reflexivity].
Qed.

Lemma or_keep_given (a b : option string) :
  given a = true -> or_keep a b = a.
Proof. unfold or_keep. now intros ->. Qed.

Lemma or_keep_not_given (a b : option string) :
  given a = false -> or_keep a b = b.
Proof. unfold or_keep. now intros ->. Qed.

(** X23.  Two partial updates in a row amount to one: if the event that
    the first update sent is what the service holds when the second one
    reads it, the second sends the event a single update would send with
    the arguments of both, the later ones taking precedence where both are
    given.  In particular repeating an update changes nothing. *)
Theorem updated_event_twice
        (Other : Type) (later earlier : UpdateArgs) (existing : EventData Other) :
  updated_event later (updated_event earlier existing)
  = updated_event (over later earlier) existing
  /\ updated_event earlier (updated_event earlier existing)
     = updated_event earlier existing.
Proof.
  assert (H : forall a b : UpdateArgs,
             updated_event a (updated_event b existing)
             = updated_event (over a b) existing).
  { intros a b. unfold updated_event, over.
    cbn [arg_summary arg_description arg_startDateTime arg_endDateTime arg_location].
    rewrite !given_or_keep.
    destruct (given (arg_startDateTime a)) eqn:Hsa;
      destruct (given (arg_startDateTime b)) eqn:Hsb;
      destruct (given (arg_endDateTime a)) eqn:Hea;
      destruct (given (arg_endDateTime b)) eqn:Heb;
      cbn [orb summary description location start end_ other];
      rewrite ?(or_keep_given _ (arg_startDateTime b) Hsa),
              ?(or_keep_not_given (arg_startDateTime a) _ Hsa),
              ?(or_keep_given _ (arg_endDateTime b) Hea),
              ?(or_keep_not_given (arg_endDateTime a) _ Hea),
              !or_keep_assoc;
      reflexivity. }
  split; [apply H|].
  rewrite H. f_equal. unfold over.
  destruct earlier as [s d sd ed l]. cbn.
  assert (Hid : forall v, or_keep v v = v)
    by (intros v; unfold or_keep; now destruct (given v)).
  now rewrite !Hid.
Qed.

(** X24.  An update never erases what it was not given: with an argument
    absent or empty, the corresponding property of the event sent is the
    one the service returned; with no argument given at all, the event
    sent is the existing event, untouched.  (So an empty string cannot
    clear a summary.) *)
Theorem updated_event_keeps_what_is_not_given
        (Other : Type) (args : UpdateArgs) (existing : EventData Other) :
  (given (arg_summary args) = false ->
   summary (updated_event args existing) = summary existing)
  /\ (given (arg_description args) = false ->
      description (updated_event args existing) = description existing)
  /\ (given (arg_location args) = false ->
      location (updated_event args existing) = location existing)
  /\ (given (arg_startDateTime args) = false ->
      start (updated_event args existing) = start existing)
  /\ (given (arg_endDateTime args) = false ->
      end_ (updated_event args existing) = end_ existing)
  /\ other (updated_event args existing) = other existing
  /\ (given (arg_summary args) = false ->
      given (arg_description args) = false ->
      given (arg_location args) = false ->
      given (arg_startDateTime args) = false ->
      given (arg_endDateTime args) = false ->
      updated_event args existing = existing).
Proof.
  unfold updated_event, or_keep.
  destruct (given (arg_summary args)), (given (arg_description args)),
    (given (arg_location args)), (given (arg_startDateTime args)),
    (given (arg_endDateTime args));
    cbn [summary description location start end_ other];
    repeat split; try discriminate; try reflexivity;
    intros; destruct existing; reflexivity.
Qed.

End CalendarTheory.

(** * The text [getDoc] extracts *)

Module DocsTheory.

Import Docs.

Lemma append_assoc (a b c : string) : ((a ++ b) ++ c = a ++ (b ++ c))%string.
Proof. induction a as [|x a IH]; cbn; [reflexivity|now rewrite IH]. Qed.

Lemma append_nil_r (a : string) : (a ++ "" = a)%string.
Proof. induction a as [|x a IH]; cbn; [reflexivity|now rewrite IH]. Qed.

Lemma add_runs_from (acc : string) (p : Paragraph) :
  add_runs acc p = (acc ++ add_runs "" p)%string.
Proof.
  unfold add_runs. generalize (match elements p with Some l => l | None => [] end).
  intros l. revert acc. induction l as [|te l IH]; intros acc; cbn [fold_left].
  - now rewrite append_nil_r.
  - rewrite IH. rewrite (IH (match textRun te with
                             | Some run => ("" ++ shown (content run))%string
                             | None => ""%string
                             end)).
    destruct (textRun te); cbn [append]; now rewrite ?append_assoc.
Qed.

Lemma add_elements_from (acc : string) (l : list StructuralElement) :
  add_elements acc l = (acc ++ add_elements "" l)%string.
Proof.
  unfold add_elements. revert acc.
  induction l as [|el l IH]; intros acc; cbn [fold_left].
  - now rewrite append_nil_r.
  - rewrite IH. rewrite (IH (match paragraph el with
                             | Some p => add_runs "" p
                             | None => ""%string
                             end)).
    destruct (paragraph el) as [p|]; cbn [append]; [|reflexivity].
    now rewrite add_runs_from, append_assoc.
Qed.

(** X25.  The text of a document is the text of its parts, in order: for
    a body made of two lists of elements one after the other, [getDoc]
    extracts the text of the first followed by the text of the second; an
    element that is no paragraph (a table, a section break) adds nothing,
    and a body without content gives the empty text. *)
Theorem textContent_of_parts (t : js_text) (l1 l2 : list StructuralElement) :
  textContent (document_of t (l1 ++ l2))
  = (textContent (document_of t l1) ++ textContent (document_of t l2))%string
  /\ textContent (document_of t (l1 ++ mkStructuralElement None :: l2))
     = textContent (document_of t (l1 ++ l2))
  /\ textContent (mkDocument t None) = ""%string
  /\ textContent (mkDocument t (Some (mkBody None))) = ""%string.
Proof.
  unfold textContent, document_of. cbn [body body_content].
  assert (Happ : forall a b, add_elements "" (a ++ b)
                             = (add_elements "" a ++ add_elements "" b)%string).
  { intros a b. unfold add_elements at 1. rewrite fold_left_app.
    fold (add_elements "" a). fold (add_elements (add_elements "" a) b).
    apply add_elements_from. }
  split; [apply Happ|]. split; [|split; reflexivity].
  rewrite !Happ. f_equal.
Qed.

End DocsTheory.

(** * The messages [listGmailMessages] details *)

Module GmailListTheory.

Import GmailList.

Lemma Promise_all_returns {A B} (f : A -> Outcome B) (l : list A) (out : list B) :
  Promise_all (map f l) = Return out ->
  Forall2 (fun a b => f a = Return b) l out.
Proof.
  revert out. induction l as [|a l IH]; intros out; cbn [map Promise_all].
  - intros H. injection H as <-. constructor.
  - destruct (f a) as [b|e] eqn:Hf; [|discriminate].
    destruct (Promise_all (map f l)) as [rest|e]; [|discriminate].
    intros H. injection H as <-. constructor; [exact Hf|now apply IH].
Qed.

Lemma map_agree {A B} (f g : A -> B) (l : list A) :
  (forall a, In a l -> g a = f a) -> map g l = map f l.
Proof.
  intros H. apply map_ext_in. intros a Ha. now apply H.
Qed.

(** X26.  At most five messages are detailed, whatever [maxResults] asks
    for: when the call succeeds on a listing of [n] messages, it returns
    the details of the first [min 5 n] of them, in the order of the
    listing, each with the id and thread id of its message.  The messages
    past the fifth are never fetched: the answers the service would give
    for them do not change the result. *)
Theorem listGmailMessages_details_first_five
        (list_messages : string -> Z -> Outcome (option (list MessageRef)))
        (get_message : option string -> Outcome DetailData)
        (query : option string) (maxResults : option Z)
        (messages : list MessageRef) (details : list MessageDetail) :
  list_messages (match query with Some q => q | None => "" end)
                (match maxResults with Some n => n | None => 10 end)
  = Return (Some messages) ->
  listGmailMessages list_messages get_message query maxResults = Return details ->
  List.length details = Nat.min 5 (List.length messages)
  /\ map md_id details = map id (firstn 5 messages)
  /\ map md_threadId details = map threadId (firstn 5 messages)
  /\ forall get_message',
      (forall m, In m (firstn 5 messages) -> get_message' (id m) = get_message (id m)) ->
      listGmailMessages list_messages get_message' query maxResults = Return details.
Proof.
  intros Hlist Hrun. unfold listGmailMessages in *. rewrite Hlist in *.
  cbv zeta in *.
  pose proof (Promise_all_returns _ _ Hrun) as Hall.
  assert (Hfields : map md_id details = map id (firstn 5 messages)
                    /\ map md_threadId details = map threadId (firstn 5 messages)).
  { induction Hall as [|m d l out Hd Hall IH]; [split; reflexivity|].
    cbn [map]. unfold detail_of in Hd.
    destruct (get_message (id m)) as [data|e]; [|discriminate].
    destruct (payload data); [|discriminate].
    injection Hd as <-. cbn [md_id md_threadId].
    assert (Hrest : Promise_all (map (detail_of get_message) l) = Return out).
    { clear IH Hrun. induction Hall as [|m' d' l' out' Hd' Hall' IH'];
        [reflexivity|].
      cbn [map Promise_all]. now rewrite Hd', IH'. }
    destruct (IH Hrest) as [-> ->]. split; reflexivity. }
  split.
  - apply Forall2_length in Hall. rewrite <- Hall. apply length_firstn.
  - split; [apply Hfields|]. split; [apply Hfields|].
    intros get' Hagree. rewrite <- Hrun. f_equal.
    apply map_agree. intros m Hm. unfold detail_of. now rewrite (Hagree m Hm).
Qed.

Lemma listGmailMessages_details_first_five_witness :
  let refs := map (fun i => mkMessageRef (Some i) (Some "t"))
                  ["m1"; "m2"; "m3"; "m4"; "m5"; "m6"; "m7"] in
  let list_messages := fun (_ : string) (_ : Z) => Return (Some refs) in
  let get_message := fun (_ : option string) =>
                       Return (mkDetailData (Some (mkPayload None)) (Some "...")) in
  exists details,
    listGmailMessages list_messages get_message None (Some 100) = Return details
    /\ List.length details = 5%nat.
Proof.
  intros refs list_messages get_message.
  eexists. split; [reflexivity|].
  exact (proj1 (@listGmailMessages_details_first_five
                  list_messages get_message None (Some 100) refs _
                  eq_refl eq_refl)).
Defined.

End GmailListTheory.
